(** * Video controls of the COVID pages (src/covid/video.js)

    A shallow embedding of the per-video controller that the page-load
    handler of [video.js] builds for every VIDEO element: the closure
    variables [seek_active] and [seek_pending], the helper [current_time],
    the debounced [seek_nicely] with its 100 ms timeout callback, and the
    handlers [play_pause], [loop_toggle], [rewind], [prev_frame],
    [next_frame], [forward], the slider handlers and the key handler.

    Numbers.  A JavaScript number is a binary64 value: a finite one is
    modelled by the rational it denotes, next to [+Infinity],
    [-Infinity] and [NaN]; the two zeros are not told apart, which no
    operation of the script can observe.  Every arithmetic operation
    computes exactly and then rounds to the nearest binary64 value, ties
    to even, with gradual underflow and overflow to infinity ([JS.round]);
    a decimal literal such as [0.2] denotes the rounded value
    ([JS.dbl]).  The value of the range input (a numeric string in the
    browser) is modelled by the number it denotes.

    DOM.  The media element is a record of the attributes the script reads
    or writes; [pause()] and [play()] set [paused]; assigning a finite
    number to [currentTime] stores it, assigning [NaN] or an infinity
    throws a [TypeError], which ends the running listener.  Calls whose
    only effect is outside the script ([focus()], [pause()], [play()], the
    position assignment, [setTimeout], an uncaught exception) are also
    appended to a trace, newest first. *)

From Stdlib Require Import QArith Qround Qabs Qpower ZArith List Bool String Lia Lqa.
Import ListNotations.

Local Open Scope Q_scope.

(** ** JavaScript numbers and values *)

Module JS.

Inductive num : Type :=
| Fin (q : Q)
| PInf
| NInf
| NaN.

(** Values held by the two closure variables and passed as seek times. *)
Inductive value : Type :=
| Undefined
| Null
| Num (n : num).

(** [floor(log2 a)] for a positive rational [a]. *)
Definition ilog2 (a : Q) : Z :=
  let k := (Z.log2 (Qnum a) - Z.log2 (Zpos (Qden a)))%Z in
  if Qle_bool (2 ^ k) a then k else (k - 1)%Z.

(** The integer nearest to [x], ties to the even one. *)
Definition rne (x : Q) : Z :=
  let f := Qfloor x in
  match Qcompare (x - inject_Z f) (1#2) with
  | Lt => f
  | Gt => (f + 1)%Z
  | Eq => if Z.even f then f else (f + 1)%Z
  end.

(** Rounding of a positive rational to binary64: a 53-bit significand at
    the exponent of the value, never below the subnormal exponent -1074;
    [None] stands for overflow. *)
Definition round_pos (a : Q) : option Q :=
  let e := Z.max (ilog2 a - 52) (-1074) in
  let r := Qred (inject_Z (rne (a / 2 ^ e)) * 2 ^ e) in
  if Qle_bool (2 ^ 1024) r then None else Some r.

(** Rounding of an exact result to the nearest binary64 value. *)
Definition round (x : Q) : num :=
  match Qnum x with
  | Z0 => Fin 0
  | Zpos _ =>
      match round_pos x with
      | Some r => Fin r
      | None => PInf
      end
  | Zneg _ =>
      match round_pos (- x) with
      | Some r => Fin (Qred (- r))
      | None => NInf
      end
  end.

(** The value of a decimal literal of the source, such as [0.2]. *)
Definition dbl (q : Q) : Q :=
  match round q with
  | Fin r => r
  | _ => 0
  end.

(** [x op k] for a finite constant [k] ([k > 0] for [*] and [/]):
    infinities and NaN are preserved, a finite operand gives the exact
    result [f q] rounded. *)
Definition arith (f : Q -> Q) (n : num) : num :=
  match n with
  | Fin q => round (f q)
  | PInf => PInf
  | NInf => NInf
  | NaN => NaN
  end.

(** [Math.floor] and [Math.ceil]; on a binary64 value the result is
    again one, so the rounding changes nothing. *)
Definition floor : num -> num := arith (fun q => inject_Z (Qfloor q)).
Definition ceil : num -> num := arith (fun q => inject_Z (Qceiling q)).


Definition Qltb (x y : Q) : bool := negb (Qle_bool y x).

(** [a < b] on numbers: false as soon as one side is NaN. *)
Definition ltb (a b : num) : bool :=
  match a, b with
  | NaN, _ | _, NaN => false
  | Fin x, Fin y => Qltb x y
  | NInf, NInf => false
  | NInf, _ => true
  | _, NInf => false
  | PInf, _ => false
  | Fin _, PInf => true
  end.

Definition gtb (a b : num) : bool := ltb b a.

(** [a != b] on numbers: NaN differs from everything, itself included. *)
Definition num_neq (a b : num) : bool :=
  match a, b with
  | NaN, _ | _, NaN => true
  | Fin x, Fin y => negb (Qeq_bool x y)
  | PInf, PInf => false
  | NInf, NInf => false
  | _, _ => true
  end.

(** [isFinite(x)] *)
Definition isFinite (n : num) : bool :=
  match n with Fin _ => true | _ => false end.

(** ToNumber *)
Definition to_number (v : value) : num :=
  match v with
  | Undefined => NaN
  | Null => Fin 0
  | Num n => n
  end.

(** [v != null]: only [undefined] and [null] are loosely equal to [null]. *)
Definition not_null (v : value) : bool :=
  match v with Num _ => true | _ => false end.

(** Loose inequality [a != b]. *)
Definition neq (a b : value) : bool :=
  match a, b with
  | Num x, Num y => num_neq x y
  | Num _, _ | _, Num _ => true
  | _, _ => false
  end.



End JS.

(** ** The page state seen by one controller *)

(** The media element. *)
Record video_t : Type := mkVideo {
  currentTime : JS.num;
  duration : JS.num;
  paused : bool;
  ended : bool;
  loop : bool
}.

(** Which of the optional elements [id_key_target], [id_play], ... exist. *)
Record controls : Type := mkControls {
  key_target : bool;
  play_button : bool;
  loop_button : bool;
  rewind_button : bool;
  prev_button : bool;
  next_button : bool;
  forward_button : bool;
  slider_range : bool
}.

(** The seek buttons that carry the [seeking] class. *)
Inductive button : Type := Rewind | Prev | Next | Forward.

(** Class lists of the buttons, one flag per class name the script uses. *)
Record classes : Type := mkClasses {
  rewind_seeking : bool;
  prev_seeking : bool;
  next_seeking : bool;
  forward_seeking : bool;
  play_playing : bool;
  play_paused : bool;
  loop_looping : bool
}.

(** The range input. *)
Record slider_t : Type := mkSlider {
  slider_value : JS.value;
  slider_min : JS.num;
  slider_max : JS.num
}.

(** Calls that leave the script. *)
Inductive effect : Type :=
| EFocus
| EPause
| EPlay
| ESetTime (n : JS.num)
| ESetTimeout
| ETypeError.

Record world : Type := mkWorld {
  video : video_t;
  cls : classes;
  slider : slider_t;
  seek_active : JS.value;
  seek_pending : JS.value;
  timers : nat;
  trace : list effect
}.

(** Field updates. *)
Definition set_video (f : video_t -> video_t) (w : world) : world :=
  mkWorld (f (video w)) (cls w) (slider w) (seek_active w) (seek_pending w)
          (timers w) (trace w).
Definition set_cls (f : classes -> classes) (w : world) : world :=
  mkWorld (video w) (f (cls w)) (slider w) (seek_active w) (seek_pending w)
          (timers w) (trace w).
Definition set_slider (f : slider_t -> slider_t) (w : world) : world :=
  mkWorld (video w) (cls w) (f (slider w)) (seek_active w) (seek_pending w)
          (timers w) (trace w).
Definition set_seek_active (v : JS.value) (w : world) : world :=
  mkWorld (video w) (cls w) (slider w) v (seek_pending w) (timers w) (trace w).
Definition set_seek_pending (v : JS.value) (w : world) : world :=
  mkWorld (video w) (cls w) (slider w) (seek_active w) v (timers w) (trace w).
Definition set_timers (n : nat) (w : world) : world :=
  mkWorld (video w) (cls w) (slider w) (seek_active w) (seek_pending w) n
          (trace w).
Definition emit (e : effect) (w : world) : world :=
  mkWorld (video w) (cls w) (slider w) (seek_active w) (seek_pending w)
          (timers w) (e :: trace w).

(** Statement sequencing and the guard [if (c) stmt;]. *)
Definition seq (f g : world -> world) : world -> world := fun w => g (f w).
Notation "f ;; g" := (seq f g) (at level 61, right associativity).
Definition when (c : bool) (f : world -> world) : world -> world :=
  fun w => if c then f w else w.
Definition skip : world -> world := fun w => w.

(** *** DOM primitives *)

Definition focus : world -> world := emit EFocus.

Definition video_pause : world -> world :=
  set_video (fun v => mkVideo (currentTime v) (duration v) true (ended v) (loop v))
  ;; emit EPause.

Definition video_play : world -> world :=
  set_video (fun v => mkVideo (currentTime v) (duration v) false (ended v) (loop v))
  ;; emit EPlay.

(** The state change of a successful [video.currentTime = n]. *)
Definition assign_currentTime (n : JS.num) : world -> world :=
  set_video (fun v => mkVideo n (duration v) (paused v) (ended v) (loop v))
  ;; emit (ESetTime n).

(** [video.currentTime = n]: the attribute is a WebIDL [double], so the
    setter throws a [TypeError] ([None]) unless [n] is finite. *)
Definition video_set_currentTime (n : JS.num) (w : world) : option world :=
  if JS.isFinite n then Some (assign_currentTime n w) else None.

(** [stmt; rest] where [stmt] may throw: the exception skips [rest] and,
    nothing catching it, leaves the listener. *)
Definition or_throw (stmt : world -> option world) (rest : world -> world)
  : world -> world :=
  fun w =>
    match stmt w with
    | Some w' => rest w'
    | None => emit ETypeError w
    end.

Definition video_set_loop (b : bool) : world -> world :=
  set_video (fun v => mkVideo (currentTime v) (duration v) (paused v) (ended v) b).

Definition setTimeout : world -> world :=
  (fun w => set_timers (S (timers w)) w) ;; emit ESetTimeout.

Definition set_seeking (b : button) (on : bool) : world -> world :=
  set_cls (fun c =>
    match b with
    | Rewind => mkClasses on (prev_seeking c) (next_seeking c) (forward_seeking c)
                          (play_playing c) (play_paused c) (loop_looping c)
    | Prev => mkClasses (rewind_seeking c) on (next_seeking c) (forward_seeking c)
                        (play_playing c) (play_paused c) (loop_looping c)
    | Next => mkClasses (rewind_seeking c) (prev_seeking c) on (forward_seeking c)
                        (play_playing c) (play_paused c) (loop_looping c)
    | Forward => mkClasses (rewind_seeking c) (prev_seeking c) (next_seeking c) on
                           (play_playing c) (play_paused c) (loop_looping c)
    end).

Definition set_looping (on : bool) : world -> world :=
  set_cls (fun c => mkClasses (rewind_seeking c) (prev_seeking c) (next_seeking c)
                              (forward_seeking c) (play_playing c) (play_paused c) on).
Definition set_playing (on : bool) : world -> world :=
  set_cls (fun c => mkClasses (rewind_seeking c) (prev_seeking c) (next_seeking c)
                              (forward_seeking c) on (play_paused c) (loop_looping c)).
Definition set_paused_class (on : bool) : world -> world :=
  set_cls (fun c => mkClasses (rewind_seeking c) (prev_seeking c) (next_seeking c)
                              (forward_seeking c) (play_playing c) on (loop_looping c)).

Definition set_slider_value (v : JS.value) : world -> world :=
  set_slider (fun s => mkSlider v (slider_min s) (slider_max s)).

(** The [seeking] class of a button. *)
Definition seeking (b : button) (w : world) : bool :=
  match b with
  | Rewind => rewind_seeking (cls w)
  | Prev => prev_seeking (cls w)
  | Next => next_seeking (cls w)
  | Forward => forward_seeking (cls w)
  end.

(** No seek button carries the [seeking] class. *)
Definition no_marker (w : world) : bool :=
  negb (rewind_seeking (cls w)) && negb (prev_seeking (cls w))
  && negb (next_seeking (cls w)) && negb (forward_seeking (cls w)).

(** The seek state of the specification: [Seeking] when [seek_active] is
    neither [undefined] nor [null]. *)
Definition Seeking (w : world) : bool := JS.not_null (seek_active w).
Definition Idle (w : world) : bool := negb (Seeking w).

(** ** The controller of one video element *)

(** Which return path the timeout callback took: [Reissued] is
    [return seek_nicely(seek_pending)], [Cleared] is the path that falls
    through to the four [classList.remove('seeking')] statements. *)
Inductive outcome : Type := Reissued | Cleared.

Section Controller.

Variable c : controls.

(** [function current_time()] *)
Definition current_time (w : world) : JS.value :=
  if JS.not_null (seek_active w) then seek_pending w
  else JS.Num (currentTime (video w)).

(** [function seek_nicely(time)]; the timeout callback it registers is
    [timeout_callback] below.  In the chained assignment the two closure
    variables are assigned before the setter of [currentTime] runs, so
    they keep [time] when the setter throws.  Every caller has the call of
    [seek_nicely] as its last statement, except [play_pause], which
    reaches it through [rewind()] with the finite time 0. *)
Definition seek_nicely (time : JS.value) : world -> world :=
  when (slider_range c) (set_slider_value time) ;;
  fun w =>
    if JS.not_null (seek_active w) then set_seek_pending time w
    else (video_pause ;;
          set_seek_pending time ;; set_seek_active time ;;
          or_throw (video_set_currentTime (JS.to_number time)) setTimeout) w.

(** The function passed to [window.setTimeout(..., 100)]. *)
Definition timeout_callback (w : world) : outcome * world :=
  let changed := JS.neq (seek_pending w) (seek_active w) in
  let w := set_seek_active JS.Null w in
  if changed then (Reissued, seek_nicely (seek_pending w) w)
  else (Cleared,
        (when (rewind_button c) (set_seeking Rewind false) ;;
         when (prev_button c) (set_seeking Prev false) ;;
         when (next_button c) (set_seeking Next false) ;;
         when (forward_button c) (set_seeking Forward false)) w).

(** [function rewind()] *)
Definition rewind : world -> world :=
  when (key_target c) focus ;;
  when (rewind_button c) (set_seeking Rewind true) ;;
  seek_nicely (JS.Num (JS.Fin 0)).

(** [current_time() > video.duration - 0.2] *)
Definition near_end (w : world) : bool :=
  JS.gtb (JS.to_number (current_time w))
         (JS.arith (fun d => d - JS.dbl (1#5)) (duration (video w))).

(** [function play_pause()] *)
Definition play_pause : world -> world :=
  when (key_target c) focus ;;
  (fun w => when (near_end w) rewind w) ;;
  (fun w => if paused (video w) || ended (video w) then video_play w
            else video_pause w).

(** [function loop_toggle()] *)
Definition loop_toggle : world -> world :=
  when (key_target c) focus ;;
  fun w =>
    let on := negb (loop (video w)) in
    (video_set_loop on ;;
     (if on then video_play else video_pause) ;;
     when (loop_button c && negb on) (set_looping false) ;;
     when (loop_button c && on) (set_looping true)) w.

(** [(Math.ceil(current_time() * 3) - 1.5) / 3] *)
Definition prev_of (t : JS.value) : JS.num :=
  JS.arith (fun x => x / 3)
    (JS.arith (fun x => x - (3#2))
       (JS.ceil (JS.arith (fun x => x * 3) (JS.to_number t)))).

(** [prev > 0.2 ? prev : 0] *)
Definition prev_target (t : JS.value) : JS.num :=
  let prev := prev_of t in
  if JS.gtb prev (JS.Fin (JS.dbl (1#5))) then prev else JS.Fin 0.

(** [function prev_frame()] *)
Definition prev_frame : world -> world :=
  when (key_target c) focus ;;
  when (prev_button c) (set_seeking Prev true) ;;
  fun w => seek_nicely (JS.Num (prev_target (current_time w))) w.

(** [(Math.floor(current_time() * 3) + 1.5) / 3] *)
Definition next_of (t : JS.value) : JS.num :=
  JS.arith (fun x => x / 3)
    (JS.arith (fun x => x + (3#2))
       (JS.floor (JS.arith (fun x => x * 3) (JS.to_number t)))).

(** [next < video.duration - 0.2 ? next : video.duration] *)
Definition next_target (t : JS.value) (d : JS.num) : JS.num :=
  let next := next_of t in
  if JS.ltb next (JS.arith (fun x => x - JS.dbl (1#5)) d) then next else d.

(** [function next_frame()] *)
Definition next_frame : world -> world :=
  when (key_target c) focus ;;
  when (next_button c) (set_seeking Next true) ;;
  fun w =>
    seek_nicely (JS.Num (next_target (current_time w) (duration (video w)))) w.

(** [function forward()] *)
Definition forward : world -> world :=
  when (key_target c) focus ;;
  fun w =>
    if JS.isFinite (duration (video w)) then
      (when (forward_button c) (set_seeking Forward true) ;;
       seek_nicely (JS.Num (duration (video w)))) w
    else w.

(** The [input] listener of the slider: [seek_nicely(slider_range.value)].
    The browser has stored the position [x] chosen by the user in the
    slider before it dispatches the event. *)
Definition slider_input (x : Q) : world -> world :=
  set_slider_value (JS.Num (JS.Fin x)) ;;
  fun w => seek_nicely (slider_value (slider w)) w.

(** [function slider_from_video()] *)
Definition slider_from_video : world -> world :=
  fun w =>
    if negb (JS.isFinite (duration (video w))) then w
    else set_slider (fun _ => mkSlider (current_time w) (JS.Fin 0)
                                       (duration (video w))) w.

(** The [play] and [pause] listeners that mirror the state on the play
    button. *)
Definition on_play : world -> world :=
  set_playing true ;; set_paused_class false.
Definition on_pause : world -> world :=
  set_paused_class true ;; set_playing false.

(** The [keydown] listener of the key target. *)
Definition keydown (code : string) : world -> world :=
  if String.eqb code "KeyP" then play_pause
  else if String.eqb code "KeyL" then loop_toggle
  else if String.eqb code "KeyR" then rewind
  else if String.eqb code "BracketLeft" then prev_frame
  else if String.eqb code "BracketRight" then next_frame
  else if String.eqb code "KeyF" then forward
  else skip.

(** *** Timers *)

(** One pending timeout expires and its callback runs. *)
Definition fire (w : world) : option (outcome * world) :=
  match timers w with
  | O => None
  | S n => Some (timeout_callback (set_timers n w))
  end.

(** Let timeouts expire until none is pending, at most [fuel] of them;
    returns the outcomes in the order they happened. *)
Fixpoint settle (fuel : nat) (w : world) : list outcome * world :=
  match fuel with
  | O => ([], w)
  | S k =>
      match fire w with
      | None => ([], w)
      | Some (o, w') => let (os, w'') := settle k w' in (o :: os, w'')
      end
  end.

(** A burst of requests: [seek_nicely] called with each time in turn, no
    timeout expiring in between. *)
Definition requests (ts : list JS.value) (w : world) : world :=
  fold_left (fun w t => seek_nicely t w) ts w.

(** *** The page as a transition system *)

Inductive action : Type :=
| ClickVideo
| ClickPlay
| ClickLoop
| ClickRewind
| ClickPrev
| ClickNext
| ClickForward
| SliderInput (x : Q)
| KeyDown (code : string)
| Timeout
| MediaPlay
| MediaPause
| MediaTimeUpdate
| MediaChange (v : video_t).

Definition guard (b : bool) (w : world) : option world :=
  if b then Some w else None.

(** The listener run for an action; [None] when no listener was
    registered for it (the element is absent) or no timeout is pending.
    [MediaChange] is the browser changing the attributes of the media
    element (playback progress, metadata arriving). *)
Definition step (a : action) (w : world) : option world :=
  match a with
  | ClickVideo => Some (play_pause w)
  | ClickPlay => guard (play_button c) (play_pause w)
  | ClickLoop => guard (loop_button c) (loop_toggle w)
  | ClickRewind => guard (rewind_button c) (rewind w)
  | ClickPrev => guard (prev_button c) (prev_frame w)
  | ClickNext => guard (next_button c) (next_frame w)
  | ClickForward => guard (forward_button c) (forward w)
  | SliderInput x => guard (slider_range c) (slider_input x w)
  | KeyDown code => guard (key_target c) (keydown code w)
  | Timeout => option_map snd (fire w)
  | MediaPlay => guard (play_button c) (on_play w)
  | MediaPause => guard (play_button c) (on_pause w)
  | MediaTimeUpdate => guard (slider_range c) (slider_from_video w)
  | MediaChange v => Some (set_video (fun _ => v) w)
  end.

(** The state after the body of the [load] listener ran for a video [v]
    whose slider element, if any, starts as [s]; the markup sets none of
    the classes the script manages. *)
Definition init (v : video_t) (s : slider_t) : world :=
  (when (play_button c)
        (fun w => if paused (video w) then set_paused_class true w
                  else set_playing true w) ;;
   when (slider_range c) slider_from_video ;;
   when (key_target c) focus)
    (mkWorld v (mkClasses false false false false false false false) s
             JS.Undefined JS.Undefined O []).

Inductive reachable : world -> Prop :=
| reachable_init : forall v s, reachable (init v s)
| reachable_step : forall a w w',
    reachable w -> step a w = Some w' -> reachable w'.

End Controller.

(** ** Sample pages *)

Definition all_controls : controls :=
  mkControls true true true true true true true true.

Definition sample_video (t d : Q) (p : bool) : video_t :=
  mkVideo (JS.Fin t) (JS.Fin d) p false false.
Definition sample_slider : slider_t :=
  mkSlider (JS.Num (JS.Fin 0)) (JS.Fin 0) (JS.Fin 100).

(** ** Observations on worlds *)

(** The position most recently assigned to [video.currentTime]. *)
Fixpoint last_set_time (tr : list effect) : option JS.num :=
  match tr with
  | [] => None
  | ESetTime n :: _ => Some n
  | _ :: tr' => last_set_time tr'
  end.

(** The positions assigned to [video.currentTime], newest first. *)
Fixpoint set_times (tr : list effect) : list JS.num :=
  match tr with
  | [] => []
  | ESetTime n :: tr' => n :: set_times tr'
  | _ :: tr' => set_times tr'
  end.

(** Whether the button of a seek operation exists on the page. *)
Definition present (c : controls) (b : button) : bool :=
  match b with
  | Rewind => rewind_button c
  | Prev => prev_button c
  | Next => next_button c
  | Forward => forward_button c
  end.



(** The position most recently assigned to the media, as a value. *)
Definition applied (w : world) : JS.value :=
  match last_set_time (trace w) with
  | Some n => JS.Num n
  | None => JS.Undefined
  end.

(** The operation behind each seek button. *)
Definition seek_op (c : controls) (b : button) : world -> world :=
  match b with
  | Rewind => rewind c
  | Prev => prev_frame c
  | Next => next_frame c
  | Forward => forward c
  end.

(** Seek state, timers and classes agree: while seeking one timeout is
    pending if the applied time is finite and none if it is not (the
    setter threw before [setTimeout]); while idle no timeout is pending
    and no marker is set; an absent button never carries a marker. *)
Definition inv (c : controls) (w : world) : Prop :=
  (Seeking w = true ->
     timers w
     = (if JS.isFinite (JS.to_number (seek_active w)) then 1 else 0)%nat /\
     JS.not_null (seek_pending w) = true) /\
  (Seeking w = false -> timers w = O /\ forall b, seeking b w = false) /\
  (forall b, present c b = false -> seeking b w = false).

(** The part of [inv] that still holds between marking a button and the
    call of [seek_nicely]. *)
Definition timers_ok (c : controls) (w : world) : Prop :=
  (Seeking w = true ->
     timers w
     = (if JS.isFinite (JS.to_number (seek_active w)) then 1 else 0)%nat /\
     JS.not_null (seek_pending w) = true) /\
  (Seeking w = false -> timers w = O) /\
  (forall b, present c b = false -> seeking b w = false).

(** [w'] differs from [w] in nothing the seek machinery reads. *)
Definition same_seek (w w' : world) : Prop :=
  seek_active w' = seek_active w /\ seek_pending w' = seek_pending w /\
  timers w' = timers w /\ forall b, seeking b w' = seeking b w.

(** Markers set in [w] are still set in [w']. *)
Definition keeps (w w' : world) : Prop :=
  forall b, seeking b w = true -> seeking b w' = true.

(** The listeners of a list of actions run one after the other; [None]
    when one of them is not enabled. *)
Fixpoint run (c : controls) (l : list action) (w : world) : option world :=
  match l with
  | [] => Some w
  | a :: l' =>
      match step c a w with
      | Some w' => run c l' w'
      | None => None
      end
  end.

(** A seek is in flight but no timeout is left to complete it. *)
Definition jammed (w : world) : Prop :=
  Seeking w = true /\ timers w = O.

(** A finite time as a value. *)
Definition num_of (q : Q) : JS.value := JS.Num (JS.Fin q).

(** The slider shows the pending target while a seek is in flight. *)
Definition slider_sync (c : controls) (w : world) : Prop :=
  slider_range c = true -> Seeking w = true ->
  slider_value (slider w) = seek_pending w.

(** The play button carries exactly one of [playing] and [paused]; without
    a play button neither flag is ever set. *)
Definition play_classes_ok (c : controls) (w : world) : Prop :=
  xorb (play_playing (cls w)) (play_paused (cls w)) = play_button c /\
  (play_button c = false -> play_playing (cls w) = false).

(** [w'] has the play-button classes of [w]. *)
Definition same_play (w w' : world) : Prop :=
  play_playing (cls w') = play_playing (cls w) /\
  play_paused (cls w') = play_paused (cls w).

(** The key codes the [keydown] listener of video.js reacts to. *)
Definition known_codes : list string :=
  ["KeyP"; "KeyL"; "KeyR"; "BracketLeft"; "BracketRight"; "KeyF"]%string.

(** ** The earlier controller (src/unnamed/part_001)

    The same page script before [seek_nicely] existed: every seek
    operation pauses and assigns the position directly, and the [seeking]
    classes are removed 150 ms after the last [seeked] event of the media
    element, each new event cancelling the timeout of the one before.
    [setTimeout] hands out fresh positive identifiers; [pending] lists the
    timeouts that were set and neither expired nor were cleared. *)

Module Legacy.

Record state : Type := mkState {
  lvideo : video_t;
  lcls : classes;
  seek_timeout_id : option nat;
  pending : list nat;
  next_id : nat;
  ltrace : list effect
}.

Definition set_lvideo (f : video_t -> video_t) (s : state) : state :=
  mkState (f (lvideo s)) (lcls s) (seek_timeout_id s) (pending s) (next_id s)
          (ltrace s).
Definition set_lcls (f : classes -> classes) (s : state) : state :=
  mkState (lvideo s) (f (lcls s)) (seek_timeout_id s) (pending s) (next_id s)
          (ltrace s).
Definition set_seek_timeout_id (i : option nat) (s : state) : state :=
  mkState (lvideo s) (lcls s) i (pending s) (next_id s) (ltrace s).
Definition set_pending (l : list nat) (s : state) : state :=
  mkState (lvideo s) (lcls s) (seek_timeout_id s) l (next_id s) (ltrace s).
Definition lemit (e : effect) (s : state) : state :=
  mkState (lvideo s) (lcls s) (seek_timeout_id s) (pending s) (next_id s)
          (e :: ltrace s).

Definition lseq (f g : state -> state) : state -> state := fun s => g (f s).
Notation "f ;;; g" := (lseq f g) (at level 61, right associativity).
Definition lwhen (b : bool) (f : state -> state) : state -> state :=
  fun s => if b then f s else s.

Definition focus : state -> state := lemit EFocus.
Definition video_pause : state -> state :=
  set_lvideo (fun v => mkVideo (currentTime v) (duration v) true (ended v) (loop v))
  ;;; lemit EPause.
Definition video_play : state -> state :=
  set_lvideo (fun v => mkVideo (currentTime v) (duration v) false (ended v) (loop v))
  ;;; lemit EPlay.
(** [video.currentTime = n]; [None] is the [TypeError] of the setter for
    a number that is not finite. *)
Definition video_set_currentTime (n : JS.num) (s : state) : option state :=
  if JS.isFinite n then
    Some ((set_lvideo (fun v => mkVideo n (duration v) (paused v) (ended v)
                                        (loop v)) ;;; lemit (ESetTime n)) s)
  else None.

(** A last statement that may throw. *)
Definition or_throw (stmt : state -> option state) : state -> state :=
  fun s =>
    match stmt s with
    | Some s' => s'
    | None => lemit ETypeError s
    end.
Definition video_set_loop (b : bool) : state -> state :=
  set_lvideo (fun v => mkVideo (currentTime v) (duration v) (paused v) (ended v) b).

(** [classList.add('seeking')] / [classList.remove('seeking')] *)
Definition mark (b : button) (on : bool) : state -> state :=
  set_lcls (fun k =>
    match b with
    | Rewind => mkClasses on (prev_seeking k) (next_seeking k) (forward_seeking k)
                          (play_playing k) (play_paused k) (loop_looping k)
    | Prev => mkClasses (rewind_seeking k) on (next_seeking k) (forward_seeking k)
                        (play_playing k) (play_paused k) (loop_looping k)
    | Next => mkClasses (rewind_seeking k) (prev_seeking k) on (forward_seeking k)
                        (play_playing k) (play_paused k) (loop_looping k)
    | Forward => mkClasses (rewind_seeking k) (prev_seeking k) (next_seeking k) on
                           (play_playing k) (play_paused k) (loop_looping k)
    end).
Definition set_looping (on : bool) : state -> state :=
  set_lcls (fun k => mkClasses (rewind_seeking k) (prev_seeking k) (next_seeking k)
                               (forward_seeking k) (play_playing k) (play_paused k) on).
Definition set_playing (on : bool) : state -> state :=
  set_lcls (fun k => mkClasses (rewind_seeking k) (prev_seeking k) (next_seeking k)
                               (forward_seeking k) on (play_paused k) (loop_looping k)).
Definition set_paused_class (on : bool) : state -> state :=
  set_lcls (fun k => mkClasses (rewind_seeking k) (prev_seeking k) (next_seeking k)
                               (forward_seeking k) (play_playing k) on (loop_looping k)).

Definition marked (b : button) (s : state) : bool :=
  match b with
  | Rewind => rewind_seeking (lcls s)
  | Prev => prev_seeking (lcls s)
  | Next => next_seeking (lcls s)
  | Forward => forward_seeking (lcls s)
  end.

(** [window.setTimeout(f, 150)]: a fresh identifier, now pending. *)
Definition setTimeout (s : state) : nat * state :=
  (next_id s,
   lemit ESetTimeout
     (mkState (lvideo s) (lcls s) (seek_timeout_id s)
              (next_id s :: pending s) (S (next_id s)) (ltrace s))).

(** [window.clearTimeout(id)] *)
Definition clearTimeout (id : nat) : state -> state :=
  fun s => set_pending (filter (fun j => negb (Nat.eqb j id)) (pending s)) s.

(** Truthiness of [seek_timeout_id]: [undefined], [null] and 0 are falsy. *)
Definition truthy (i : option nat) : bool :=
  match i with
  | Some (S _) => true
  | _ => false
  end.

Section Controller.

Variable c : controls.

(** [function rewind()] *)
Definition rewind : state -> state :=
  lwhen (key_target c) focus ;;;
  lwhen (rewind_button c) (mark Rewind true) ;;;
  video_pause ;;;
  or_throw (video_set_currentTime (JS.Fin 0)).

(** [video.currentTime > video.duration - 0.2] *)
Definition near_end (s : state) : bool :=
  JS.gtb (currentTime (lvideo s))
         (JS.arith (fun d => d - JS.dbl (1#5)) (duration (lvideo s))).

(** [function play_pause()] *)
Definition play_pause : state -> state :=
  lwhen (key_target c) focus ;;;
  (fun s => lwhen (near_end s) rewind s) ;;;
  (fun s => if paused (lvideo s) || ended (lvideo s) then video_play s
            else video_pause s).

(** [function loop_toggle()] *)
Definition loop_toggle : state -> state :=
  lwhen (key_target c) focus ;;;
  fun s =>
    let on := negb (loop (lvideo s)) in
    (video_set_loop on ;;;
     (if on then video_play else video_pause) ;;;
     lwhen (loop_button c && negb on) (set_looping false) ;;;
     lwhen (loop_button c && on) (set_looping true)) s.

(** [(Math.ceil(video.currentTime * 3) - 1.2) / 3] *)
Definition prev_of (t : JS.num) : JS.num :=
  JS.arith (fun x => x / 3)
    (JS.arith (fun x => x - JS.dbl (6#5))
       (JS.ceil (JS.arith (fun x => x * 3) t))).

(** [function prev_frame()] *)
Definition prev_frame : state -> state :=
  lwhen (key_target c) focus ;;;
  lwhen (prev_button c) (mark Prev true) ;;;
  video_pause ;;;
  fun s => or_throw (video_set_currentTime (prev_of (currentTime (lvideo s)))) s.

(** [(Math.floor(video.currentTime * 3) + 1.2) / 3] *)
Definition next_of (t : JS.num) : JS.num :=
  JS.arith (fun x => x / 3)
    (JS.arith (fun x => x + JS.dbl (6#5))
       (JS.floor (JS.arith (fun x => x * 3) t))).

(** [function next_frame()] *)
Definition next_frame : state -> state :=
  lwhen (key_target c) focus ;;;
  lwhen (next_button c) (mark Next true) ;;;
  video_pause ;;;
  fun s => or_throw (video_set_currentTime (next_of (currentTime (lvideo s)))) s.

(** [function forward()] *)
Definition forward : state -> state :=
  lwhen (key_target c) focus ;;;
  fun s =>
    if JS.isFinite (duration (lvideo s)) then
      (lwhen (forward_button c) (mark Forward true) ;;;
       video_pause ;;;
       or_throw (video_set_currentTime (duration (lvideo s)))) s
    else s.

(** The function passed to [window.setTimeout(..., 150)]. *)
Definition timeout_callback : state -> state :=
  set_seek_timeout_id None ;;;
  lwhen (rewind_button c) (mark Rewind false) ;;;
  lwhen (prev_button c) (mark Prev false) ;;;
  lwhen (next_button c) (mark Next false) ;;;
  lwhen (forward_button c) (mark Forward false).

(** The [seeked] listener. *)
Definition on_seeked : state -> state :=
  (fun s =>
     match seek_timeout_id s with
     | Some id => lwhen (truthy (Some id)) (clearTimeout id) s
     | None => s
     end) ;;;
  fun s => let (id, s') := setTimeout s in set_seek_timeout_id (Some id) s'.

(** The [play] and [pause] listeners of the play button. *)
Definition on_play : state -> state :=
  set_playing true ;;; set_paused_class false.
Definition on_pause : state -> state :=
  set_paused_class true ;;; set_playing false.

(** The [keydown] listener of the key target. *)
Definition keydown (code : string) : state -> state :=
  if String.eqb code "KeyP" then play_pause
  else if String.eqb code "KeyL" then loop_toggle
  else if String.eqb code "KeyR" then rewind
  else if String.eqb code "BracketLeft" then prev_frame
  else if String.eqb code "BracketRight" then next_frame
  else if String.eqb code "KeyF" then forward
  else fun s => s.

(** The pending timeout [id] expires; [None] if it is not pending. *)
Definition fire (id : nat) (s : state) : option state :=
  if existsb (Nat.eqb id) (pending s) then
    Some (timeout_callback (clearTimeout id s))
  else None.

Inductive action : Type :=
| ClickVideo
| ClickPlay
| ClickLoop
| ClickRewind
| ClickPrev
| ClickNext
| ClickForward
| KeyDown (code : string)
| Seeked
| Timeout (id : nat)
| MediaPlay
| MediaPause
| MediaChange (v : video_t).

Definition lguard (b : bool) (s : state) : option state :=
  if b then Some s else None.

Definition step (a : action) (s : state) : option state :=
  match a with
  | ClickVideo => Some (play_pause s)
  | ClickPlay => lguard (play_button c) (play_pause s)
  | ClickLoop => lguard (loop_button c) (loop_toggle s)
  | ClickRewind => lguard (rewind_button c) (rewind s)
  | ClickPrev => lguard (prev_button c) (prev_frame s)
  | ClickNext => lguard (next_button c) (next_frame s)
  | ClickForward => lguard (forward_button c) (forward s)
  | KeyDown code => lguard (key_target c) (keydown code s)
  | Seeked => Some (on_seeked s)
  | Timeout id => fire id s
  | MediaPlay => lguard (play_button c) (on_play s)
  | MediaPause => lguard (play_button c) (on_pause s)
  | MediaChange v => Some (set_lvideo (fun _ => v) s)
  end.

(** The state after the body of the [load] listener; the first timeout
    identifier the window hands out is [first_id + 1]. *)
Definition init (v : video_t) (first_id : nat) : state :=
  (lwhen (play_button c)
         (fun s => if paused (lvideo s) then set_paused_class true s
                   else set_playing true s) ;;;
   lwhen (key_target c) focus)
    (mkState v (mkClasses false false false false false false false)
             None [] (S first_id) []).

Inductive reachable : state -> Prop :=
| reachable_init : forall v n, reachable (init v n)
| reachable_step : forall a s s',
    reachable s -> step a s = Some s' -> reachable s'.

(** A run of [seeked] events, nothing else happening in between. *)
Fixpoint seeked_burst (n : nat) (s : state) : state :=
  match n with
  | O => s
  | S k => seeked_burst k (on_seeked s)
  end.

End Controller.

(** The operation behind each seek button. *)
Definition seek_op (c : controls) (b : button) : state -> state :=
  match b with
  | Rewind => rewind c
  | Prev => prev_frame c
  | Next => next_frame c
  | Forward => forward c
  end.

(** At most the timeout named by [seek_timeout_id] is pending, and every
    identifier handed out so far is below [next_id]. *)
Definition inv (s : state) : Prop :=
  (0 < next_id s)%nat /\
  match seek_timeout_id s with
  | Some id => pending s = [id] /\ (0 < id < next_id s)%nat
  | None => pending s = []
  end.

(** [s'] has the timeout bookkeeping of [s]. *)
Definition same_timeouts (s s' : state) : Prop :=
  seek_timeout_id s' = seek_timeout_id s /\
  pending s' = pending s /\
  next_id s' = next_id s.

(** Markers set in [s] are still set in [s']. *)
Definition lkeeps (s s' : state) : Prop :=
  forall b, marked b s = true -> marked b s' = true.

End Legacy.

(** ** The first key handler (src/unnamed/part_000)

    The [keydown] listener that the oldest script put on every VIDEO
    element.  The result says whether [event.preventDefault()] was
    called.  The position read from the media element is finite, so the
    assignment of the shifted position does not throw. *)

Module ArrowKeys.

Definition keydown (code : string) (v : video_t) : video_t * bool :=
  if String.eqb code "ArrowLeft" then
    (mkVideo (JS.arith (fun t => t - JS.dbl (1#3)) (currentTime v)) (duration v) true
             (ended v) (loop v), true)
  else if String.eqb code "ArrowRight" then
    (mkVideo (JS.arith (fun t => t + JS.dbl (1#3)) (currentTime v)) (duration v) true
             (ended v) (loop v), true)
  else if String.eqb code "KeyL" then
    let l := paused v || negb (loop v) in
    (mkVideo (currentTime v) (duration v) (negb l) (ended v) l, true)
  else (v, false).

End ArrowKeys.

(** ** Arithmetic of the number model *)



Lemma num_neq_fin (x y : Q) :
  JS.num_neq (JS.Fin x) (JS.Fin y) = false <-> x == y.
Proof.
  simpl. rewrite negb_false_iff. apply Qeq_bool_iff.
Qed.

Lemma num_neq_refl_fin (x : Q) : JS.num_neq (JS.Fin x) (JS.Fin x) = false.
Proof. apply num_neq_fin. reflexivity. Qed.

(** The last element of a non-empty list does not depend on the default. *)
Lemma last_cons_default {A : Type} (l : list A) : forall (x d : A),
  last (x :: l) d = last l x.
Proof.
  induction l as [|y l IH]; intros x d; [reflexivity|].
  change (last (x :: y :: l) d) with (last (y :: l) d).
  rewrite (IH y d), (IH y x). reflexivity.
Qed.

(** *** Rounding *)












(** Numbers the script meets at doubles next to a third: the rounding of
    [t * 3] decides which mark is taken. *)
Example next_of_below_a_third :
  next_of (JS.Num (JS.Fin (JS.dbl (3333333333333333 # 10000000000000000))))
  = JS.Fin (JS.dbl (8333333333333334 # 10000000000000000)) /\
  next_of (JS.Num (JS.Fin (JS.dbl (6666666666666666 # 10000000000000000))))
  = JS.Fin (JS.dbl (11666666666666667 # 10000000000000000)) /\
  prev_of (JS.Num (JS.Fin (JS.dbl (16666666666666667 # 10000000000000000))))
  = JS.Fin (JS.dbl (11666666666666667 # 10000000000000000)) /\
  prev_target (JS.Num (JS.Fin (JS.dbl (6666666666666667 # 10000000000000000))))
  = JS.Fin 0 /\
  next_target (JS.Num (JS.Fin (JS.dbl (52#10)))) (JS.Fin (JS.dbl (57#10)))
  = JS.Fin (JS.dbl (57#10)).
Proof. vm_compute. repeat split; reflexivity. Qed.

(** ** Equations of [seek_nicely] *)

Section SeekNicely.

Variable c : controls.

Lemma seek_nicely_seeking (t : JS.value) (w : world) :
  Seeking w = true ->
  seek_nicely c t w
  = set_seek_pending t (when (slider_range c) (set_slider_value t) w).
Proof.
  unfold Seeking, seek_nicely, seq, when. intro H.
  destruct (slider_range c); simpl; rewrite H; reflexivity.
Qed.

Lemma seek_nicely_idle (t : JS.value) (w : world) :
  Seeking w = false ->
  JS.isFinite (JS.to_number t) = true ->
  seek_nicely c t w
  = (video_pause ;; set_seek_pending t ;; set_seek_active t ;;
     assign_currentTime (JS.to_number t) ;; setTimeout)
      (when (slider_range c) (set_slider_value t) w).
Proof.
  unfold Seeking, seek_nicely, seq, when, or_throw, video_set_currentTime.
  intros H F. destruct (slider_range c); simpl; rewrite H, F; reflexivity.
Qed.

(** The setter throws: both closure variables already hold the time, the
    media is paused, and no timeout is set. *)
Lemma seek_nicely_idle_throw (t : JS.value) (w : world) :
  Seeking w = false ->
  JS.isFinite (JS.to_number t) = false ->
  seek_nicely c t w
  = (video_pause ;; set_seek_pending t ;; set_seek_active t ;;
     emit ETypeError)
      (when (slider_range c) (set_slider_value t) w).
Proof.
  unfold Seeking, seek_nicely, seq, when, or_throw, video_set_currentTime.
  intros H F. destruct (slider_range c); simpl; rewrite H, F; reflexivity.
Qed.

(** A request with a number leaves the controller seeking that number. *)
Lemma seek_nicely_pending (n : JS.num) (w : world) :
  Seeking (seek_nicely c (JS.Num n) w) = true /\
  seek_pending (seek_nicely c (JS.Num n) w) = JS.Num n.
Proof.
  destruct (Seeking w) eqn:E.
  - rewrite seek_nicely_seeking by assumption.
    unfold Seeking in *. unfold when. destruct (slider_range c); simpl; auto.
  - destruct (JS.isFinite (JS.to_number (JS.Num n))) eqn:F.
    + rewrite seek_nicely_idle by assumption.
      unfold when. destruct (slider_range c); simpl; auto.
    + rewrite seek_nicely_idle_throw by assumption.
      unfold when. destruct (slider_range c); simpl; auto.
Qed.

(** Requests while seeking touch neither the media, the classes, the
    timers, the applied position nor the trace. *)
Lemma seek_nicely_seeking_frame (t : JS.value) (w : world) :
  Seeking w = true ->
  let w' := seek_nicely c t w in
  video w' = video w /\ cls w' = cls w /\ seek_active w' = seek_active w /\
  timers w' = timers w /\ trace w' = trace w /\ seek_pending w' = t.
Proof.
  intros H. cbv zeta. rewrite seek_nicely_seeking by assumption.
  unfold when. destruct (slider_range c); simpl; repeat split; reflexivity.
Qed.

Lemma requests_seeking_frame (ts : list JS.value) : forall (w : world),
  Seeking w = true ->
  let w' := requests c ts w in
  video w' = video w /\ cls w' = cls w /\ seek_active w' = seek_active w /\
  timers w' = timers w /\ trace w' = trace w /\
  seek_pending w' = last ts (seek_pending w).
Proof.
  induction ts as [|t ts IH]; intros w H; cbv zeta.
  - simpl. repeat split; reflexivity.
  - change (requests c (t :: ts) w) with (requests c ts (seek_nicely c t w)).
    destruct (seek_nicely_seeking_frame t w H) as (Hv & Hc & Ha & Ht & Hr & Hp).
    assert (Hs : Seeking (seek_nicely c t w) = true)
      by (unfold Seeking in *; rewrite Ha; exact H).
    destruct (IH _ Hs) as (Hv' & Hc' & Ha' & Ht' & Hr' & Hp').
    rewrite Hv', Hc', Ha', Ht', Hr', Hp', Hv, Hc, Ha, Ht, Hr, Hp.
    repeat split; try reflexivity.
    symmetry. apply last_cons_default.
Qed.

End SeekNicely.

(** ** Frame lemmas for the handlers *)

Section Frames.

Variable c : controls.

(** Focusing the key target and marking a button leave everything that
    [current_time] and the guards read untouched. *)
Lemma prologue_frame (k m : bool) (b : button) (w : world) :
  let w' := when m (set_seeking b true) (when k focus w) in
  video w' = video w /\ seek_active w' = seek_active w /\
  seek_pending w' = seek_pending w /\ timers w' = timers w /\
  slider w' = slider w /\ current_time w' = current_time w /\
  Seeking w' = Seeking w /\
  trace w' = (if k then EFocus :: trace w else trace w).
Proof.
  destruct k, m; simpl; repeat split; reflexivity.
Qed.

Lemma prologue_marks (k : bool) (b : button) (w : world) :
  seeking b (when true (set_seeking b true) (when k focus w)) = true.
Proof. destruct k, b; reflexivity. Qed.

(** [seek_nicely] never touches a class list. *)
Lemma seek_nicely_cls (t : JS.value) (w : world) :
  cls (seek_nicely c t w) = cls w.
Proof.
  unfold seek_nicely, seq, when, or_throw, video_set_currentTime.
  destruct (slider_range c); simpl;
    destruct (JS.not_null (seek_active w)); try reflexivity;
    destruct (JS.isFinite (JS.to_number t)); reflexivity.
Qed.

(** [seek_nicely] never changes the duration. *)
Lemma seek_nicely_duration (t : JS.value) (w : world) :
  duration (video (seek_nicely c t w)) = duration (video w).
Proof.
  unfold seek_nicely, seq, when, or_throw, video_set_currentTime.
  destruct (slider_range c); simpl;
    destruct (JS.not_null (seek_active w)); try reflexivity;
    destruct (JS.isFinite (JS.to_number t)); reflexivity.
Qed.

Lemma requests_snoc (ts : list JS.value) (t : JS.value) (w : world) :
  requests c (ts ++ [t]) w = seek_nicely c t (requests c ts w).
Proof. unfold requests. rewrite fold_left_app. reflexivity. Qed.

End Frames.

(** ** The timeout callback *)

Section Timeouts.

Variable c : controls.

(** The four [classList.remove('seeking')] statements. *)
Lemma clear_markers (w : world) :
  let w' := (when (rewind_button c) (set_seeking Rewind false) ;;
             when (prev_button c) (set_seeking Prev false) ;;
             when (next_button c) (set_seeking Next false) ;;
             when (forward_button c) (set_seeking Forward false)) w in
  video w' = video w /\ slider w' = slider w /\
  seek_active w' = seek_active w /\ seek_pending w' = seek_pending w /\
  timers w' = timers w /\ trace w' = trace w /\
  (forall b, seeking b w' = if present c b then false else seeking b w).
Proof.
  unfold seq, when.
  destruct (rewind_button c) eqn:E1, (prev_button c) eqn:E2,
           (next_button c) eqn:E3, (forward_button c) eqn:E4;
    simpl; repeat split; try reflexivity;
    intros []; simpl; rewrite ?E1, ?E2, ?E3, ?E4; reflexivity.
Qed.

(** The timeout expires with the pending time equal to the applied one:
    the callback takes the clearing path and the controller is idle. *)
Lemma fire_unchanged (w : world) :
  timers w = 1%nat ->
  JS.neq (seek_pending w) (seek_active w) = false ->
  exists w',
    fire c w = Some (Cleared, w') /\
    timers w' = O /\ seek_active w' = JS.Null /\
    seek_pending w' = seek_pending w /\
    trace w' = trace w /\ video w' = video w /\ slider w' = slider w /\
    (forall b, seeking b w' = if present c b then false else seeking b w).
Proof.
  intros Ht Hn. unfold fire, timeout_callback. rewrite Ht.
  change (seek_pending (set_timers 0 w)) with (seek_pending w).
  change (seek_active (set_timers 0 w)) with (seek_active w).
  rewrite Hn. eexists. split; [reflexivity|].
  destruct (clear_markers (set_seek_active JS.Null (set_timers 0 w)))
    as (Hv & Hs & Ha & Hp & Htm & Htr & Hm).
  rewrite Hv, Hs, Ha, Hp, Htm, Htr. repeat split; try reflexivity.
  intro b. rewrite Hm. destruct b; reflexivity.
Qed.

(** The timeout expires after the pending time changed to the finite
    number [p]: the callback re-issues the seek, which pauses, applies
    [p] and starts a new timeout. *)
Lemma fire_changed (w : world) (p : JS.num) :
  timers w = 1%nat ->
  seek_pending w = JS.Num p ->
  JS.isFinite p = true ->
  JS.neq (seek_pending w) (seek_active w) = true ->
  exists w',
    fire c w = Some (Reissued, w') /\
    timers w' = 1%nat /\ seek_active w' = JS.Num p /\
    seek_pending w' = JS.Num p /\
    trace w' = ESetTimeout :: ESetTime p :: EPause :: trace w /\
    currentTime (video w') = p /\ cls w' = cls w /\
    paused (video w') = true.
Proof.
  intros Ht Hp Hf Hn. unfold fire, timeout_callback. rewrite Ht.
  change (seek_pending (set_timers 0 w)) with (seek_pending w).
  change (seek_active (set_timers 0 w)) with (seek_active w).
  rewrite Hn. eexists. split; [reflexivity|].
  change (seek_pending (set_seek_active JS.Null (set_timers 0 w)))
    with (seek_pending w).
  rewrite Hp, seek_nicely_idle by (try reflexivity; exact Hf).
  unfold when. destruct (slider_range c); simpl; repeat split; reflexivity.
Qed.

(** The same when [p] is not finite: the setter throws, so nothing is
    applied and no timeout is set; the controller keeps seeking. *)
Lemma fire_changed_throw (w : world) (p : JS.num) :
  timers w = 1%nat ->
  seek_pending w = JS.Num p ->
  JS.isFinite p = false ->
  JS.neq (seek_pending w) (seek_active w) = true ->
  exists w',
    fire c w = Some (Reissued, w') /\
    timers w' = O /\ seek_active w' = JS.Num p /\
    seek_pending w' = JS.Num p /\
    trace w' = ETypeError :: EPause :: trace w /\
    currentTime (video w') = currentTime (video w) /\ cls w' = cls w /\
    paused (video w') = true.
Proof.
  intros Ht Hp Hf Hn. unfold fire, timeout_callback. rewrite Ht.
  change (seek_pending (set_timers 0 w)) with (seek_pending w).
  change (seek_active (set_timers 0 w)) with (seek_active w).
  rewrite Hn. eexists. split; [reflexivity|].
  change (seek_pending (set_seek_active JS.Null (set_timers 0 w)))
    with (seek_pending w).
  rewrite Hp, seek_nicely_idle_throw by (try reflexivity; exact Hf).
  unfold when. destruct (slider_range c); simpl; repeat split; reflexivity.
Qed.

(** Nothing happens once no timeout is pending. *)
Lemma settle_quiet (fuel : nat) (w : world) :
  timers w = O -> settle c fuel w = ([], w).
Proof.
  intro H. destruct fuel; [reflexivity|]. simpl. unfold fire. rewrite H.
  reflexivity.
Qed.

Lemma fire_quiet (w : world) : timers w = O -> fire c w = None.
Proof. intro H. unfold fire. rewrite H. reflexivity. Qed.

(** A request for a finite time from the idle state applies the time and
    starts a timeout. *)
Lemma seek_nicely_from_idle (n : JS.num) (w : world) :
  Seeking w = false ->
  JS.isFinite n = true ->
  let w' := seek_nicely c (JS.Num n) w in
  timers w' = S (timers w) /\ seek_active w' = JS.Num n /\
  seek_pending w' = JS.Num n /\
  trace w' = ESetTimeout :: ESetTime n :: EPause :: trace w /\
  currentTime (video w') = n /\ paused (video w') = true /\ cls w' = cls w.
Proof.
  intros H F. cbv zeta. rewrite seek_nicely_idle by assumption.
  unfold when. destruct (slider_range c); simpl; repeat split; reflexivity.
Qed.

(** A request for a time that is not finite from the idle state: the
    controller is seeking, but nothing was applied and no timeout runs. *)
Lemma seek_nicely_from_idle_throw (n : JS.num) (w : world) :
  Seeking w = false ->
  JS.isFinite n = false ->
  let w' := seek_nicely c (JS.Num n) w in
  timers w' = timers w /\ seek_active w' = JS.Num n /\
  seek_pending w' = JS.Num n /\
  trace w' = ETypeError :: EPause :: trace w /\
  currentTime (video w') = currentTime (video w) /\
  paused (video w') = true /\ cls w' = cls w.
Proof.
  intros H F. cbv zeta. rewrite seek_nicely_idle_throw by assumption.
  unfold when. destruct (slider_range c); simpl; repeat split; reflexivity.
Qed.

End Timeouts.




(** ** play_pause as three statements *)

Section PlayPause.

Variable c : controls.

Lemma near_end_focus (k : bool) (w : world) :
  near_end (when k focus w) = near_end w.
Proof. destruct k; reflexivity. Qed.

(** [play_pause()] as the three statements of its body. *)
Lemma play_pause_unfold (w : world) :
  let w0 := when (key_target c) focus w in
  let w1 := if near_end w then rewind c w0 else w0 in
  play_pause c w
  = (if paused (video w1) || ended (video w1) then video_play w1
     else video_pause w1).
Proof.
  cbv zeta. unfold play_pause, seq.
  rewrite near_end_focus. unfold when at 2.
  destruct (near_end w); reflexivity.
Qed.

End PlayPause.

(** ** The seeking markers over all reachable states *)

Section Invariant.

Variable c : controls.

Lemma inv_timers_ok (w : world) : inv c w -> timers_ok c w.
Proof.
  intros (H1 & H2 & H3). split; [exact H1|]. split; [|exact H3].
  intro H. apply H2. exact H.
Qed.

Lemma same_seek_refl (w : world) : same_seek w w.
Proof. repeat split; reflexivity. Qed.

Lemma same_seek_trans (w1 w2 w3 : world) :
  same_seek w1 w2 -> same_seek w2 w3 -> same_seek w1 w3.
Proof.
  intros (A1 & P1 & T1 & M1) (A2 & P2 & T2 & M2).
  split; [congruence|]. split; [congruence|]. split; [congruence|].
  intro b. rewrite M2. apply M1.
Qed.

Lemma same_seek_inv (w w' : world) : same_seek w w' -> inv c w -> inv c w'.
Proof.
  intros (Ha & Hp & Ht & Hm) (H1 & H2 & H3).
  unfold inv, Seeking in *. rewrite Ha, Hp, Ht.
  repeat split; try (apply H1; assumption); try (apply H2; assumption);
    intros; rewrite Hm; [apply H2 | apply H3]; assumption.
Qed.

Lemma same_seek_timers_ok (w w' : world) :
  same_seek w w' -> timers_ok c w -> timers_ok c w'.
Proof.
  intros (Ha & Hp & Ht & Hm) (H1 & H2 & H3).
  unfold timers_ok, Seeking in *. rewrite Ha, Hp, Ht.
  repeat split; try (apply H1; assumption); try (apply H2; assumption).
  intros; rewrite Hm; apply H3; assumption.
Qed.

Lemma same_seek_keeps (w w' : world) : same_seek w w' -> keeps w w'.
Proof. intros (_ & _ & _ & Hm) b H. rewrite Hm. exact H. Qed.

Lemma keeps_trans (w1 w2 w3 : world) :
  keeps w1 w2 -> keeps w2 w3 -> keeps w1 w3.
Proof. intros H1 H2 b H. apply H2, H1, H. Qed.

(** Statements that do not touch the seek machinery. *)
Lemma same_seek_focus (k : bool) (w : world) : same_seek w (when k focus w).
Proof. destruct k; repeat split; reflexivity. Qed.

Lemma same_seek_toggle (w : world) :
  same_seek w (if paused (video w) || ended (video w) then video_play w
               else video_pause w).
Proof.
  destruct (paused (video w) || ended (video w)); repeat split; reflexivity.
Qed.

Lemma same_seek_loop_toggle (w : world) : same_seek w (loop_toggle c w).
Proof.
  unfold loop_toggle, seq, when.
  destruct (key_target c), (loop_button c); simpl;
    destruct (loop (video w)); simpl; repeat split; try reflexivity;
    intros []; reflexivity.
Qed.

Lemma same_seek_slider_from_video (w : world) :
  same_seek w (slider_from_video w).
Proof.
  unfold slider_from_video.
  destruct (negb (JS.isFinite (duration (video w)))); repeat split; reflexivity.
Qed.

(** Marking the button of a seek operation. *)
Lemma prologue_timers_ok (b : button) (w : world) :
  timers_ok c w ->
  timers_ok c (when (present c b) (set_seeking b true)
                 (when (key_target c) focus w)).
Proof.
  intros (H1 & H2 & H3).
  destruct (prologue_frame (key_target c) (present c b) b w)
    as (_ & Ha & Hp & Ht & _ & _ & Hs & _).
  unfold timers_ok. rewrite Hs, Hp, Ht, Ha.
  repeat split; try (apply H1; assumption); try (apply H2; assumption).
  intros b' Hb'. specialize (H3 b' Hb').
  unfold when.
  destruct (present c b) eqn:Eb, (key_target c);
    destruct b, b'; simpl in *; congruence.
Qed.

Lemma prologue_keeps (b : button) (w : world) :
  keeps w (when (present c b) (set_seeking b true)
             (when (key_target c) focus w)).
Proof.
  intros b' H. unfold when.
  destruct (present c b), (key_target c); destruct b, b'; simpl in *;
    auto.
Qed.

(** A request with a number re-establishes the invariant. *)
Lemma seek_nicely_inv (n : JS.num) (w : world) :
  timers_ok c w -> inv c (seek_nicely c (JS.Num n) w).
Proof.
  intros (H1 & H2 & H3).
  destruct (seek_nicely_pending c n w) as [Hs Hp].
  assert (Hc : forall b, seeking b (seek_nicely c (JS.Num n) w) = seeking b w)
    by (intros []; unfold seeking; rewrite seek_nicely_cls; reflexivity).
  unfold inv. rewrite Hs, Hp.
  split; [|split; [discriminate | intros; rewrite Hc; apply H3; assumption]].
  intros _. split; [|reflexivity].
  destruct (Seeking w) eqn:E.
  - destruct (seek_nicely_seeking_frame c (JS.Num n) w E)
      as (_ & _ & Ha & Ht & _).
    rewrite Ht, Ha. apply H1. reflexivity.
  - destruct (JS.isFinite n) eqn:F.
    + destruct (seek_nicely_from_idle c n w E F) as (Ht & Ha & _).
      rewrite Ht, Ha, (H2 eq_refl). simpl. rewrite F. reflexivity.
    + destruct (seek_nicely_from_idle_throw c n w E F) as (Ht & Ha & _).
      rewrite Ht, Ha, (H2 eq_refl). simpl. rewrite F. reflexivity.
Qed.

Lemma seek_nicely_keeps (t : JS.value) (w : world) :
  keeps w (seek_nicely c t w).
Proof.
  intros b H. destruct b; unfold seeking in *; rewrite seek_nicely_cls; exact H.
Qed.

End Invariant.

Section Reachable.

Variable c : controls.

Lemma rewind_inv (w : world) :
  inv c w -> inv c (rewind c w) /\ keeps w (rewind c w).
Proof.
  intro H. unfold rewind, seq. split.
  - apply seek_nicely_inv.
    apply (prologue_timers_ok c Rewind), inv_timers_ok, H.
  - eapply keeps_trans; [apply (prologue_keeps c Rewind)|apply seek_nicely_keeps].
Qed.

Lemma prev_frame_inv (w : world) :
  inv c w -> inv c (prev_frame c w) /\ keeps w (prev_frame c w).
Proof.
  intro H. unfold prev_frame, seq. split.
  - apply seek_nicely_inv.
    apply (prologue_timers_ok c Prev), inv_timers_ok, H.
  - eapply keeps_trans; [apply (prologue_keeps c Prev)|apply seek_nicely_keeps].
Qed.

Lemma next_frame_inv (w : world) :
  inv c w -> inv c (next_frame c w) /\ keeps w (next_frame c w).
Proof.
  intro H. unfold next_frame, seq. split.
  - apply seek_nicely_inv.
    apply (prologue_timers_ok c Next), inv_timers_ok, H.
  - eapply keeps_trans; [apply (prologue_keeps c Next)|apply seek_nicely_keeps].
Qed.

Lemma forward_inv (w : world) :
  inv c w -> inv c (forward c w) /\ keeps w (forward c w).
Proof.
  intro H. unfold forward, seq.
  destruct (prologue_frame (key_target c) false Forward w) as (Hv & _).
  simpl in Hv. rewrite Hv.
  destruct (JS.isFinite (duration (video w))).
  - split.
    + apply seek_nicely_inv.
      apply (prologue_timers_ok c Forward), inv_timers_ok, H.
    + eapply keeps_trans;
        [apply (prologue_keeps c Forward)|apply seek_nicely_keeps].
  - split.
    + eapply same_seek_inv; [apply same_seek_focus|exact H].
    + apply same_seek_keeps, same_seek_focus.
Qed.

Lemma play_pause_inv (w : world) :
  inv c w -> inv c (play_pause c w) /\ keeps w (play_pause c w).
Proof.
  intro H. rewrite play_pause_unfold. cbv zeta.
  assert (H0 : inv c (when (key_target c) focus w))
    by (eapply same_seek_inv; [apply same_seek_focus|exact H]).
  assert (K0 : keeps w (when (key_target c) focus w))
    by (apply same_seek_keeps, same_seek_focus).
  set (w1 := if near_end w then rewind c (when (key_target c) focus w)
             else when (key_target c) focus w).
  assert (H1 : inv c w1 /\ keeps w w1).
  { unfold w1. destruct (near_end w); [|split; assumption].
    destruct (rewind_inv _ H0) as [I K]. split; [exact I|].
    eapply keeps_trans; eassumption. }
  destruct H1 as [I1 K1]. split.
  - eapply same_seek_inv; [apply same_seek_toggle|exact I1].
  - eapply keeps_trans; [exact K1|apply same_seek_keeps, same_seek_toggle].
Qed.

Lemma loop_toggle_inv (w : world) :
  inv c w -> inv c (loop_toggle c w) /\ keeps w (loop_toggle c w).
Proof.
  intro H. split.
  - eapply same_seek_inv; [apply same_seek_loop_toggle|exact H].
  - apply same_seek_keeps, same_seek_loop_toggle.
Qed.

Lemma keydown_inv (code : string) (w : world) :
  inv c w -> inv c (keydown c code w) /\ keeps w (keydown c code w).
Proof.
  intro H. unfold keydown.
  destruct (String.eqb code "KeyP"); [apply play_pause_inv, H|].
  destruct (String.eqb code "KeyL"); [apply loop_toggle_inv, H|].
  destruct (String.eqb code "KeyR"); [apply rewind_inv, H|].
  destruct (String.eqb code "BracketLeft"); [apply prev_frame_inv, H|].
  destruct (String.eqb code "BracketRight"); [apply next_frame_inv, H|].
  destruct (String.eqb code "KeyF"); [apply forward_inv, H|].
  split; [exact H | intros b Hb; exact Hb].
Qed.

(** A slider seek enters [Seeking] and leaves every class as it was. *)
Lemma slider_input_marks_nothing (x : Q) (w : world) :
  Seeking (slider_input c x w) = true /\
  seek_pending (slider_input c x w) = JS.Num (JS.Fin x) /\
  cls (slider_input c x w) = cls w.
Proof.
  unfold slider_input, seq.
  change (slider_value (slider (set_slider_value (JS.Num (JS.Fin x)) w)))
    with (JS.Num (JS.Fin x)).
  destruct (seek_nicely_pending c (JS.Fin x)
              (set_slider_value (JS.Num (JS.Fin x)) w)) as [Hs Hp].
  rewrite seek_nicely_cls. repeat split; assumption.
Qed.

Lemma slider_input_inv (x : Q) (w : world) :
  inv c w -> inv c (slider_input c x w) /\ keeps w (slider_input c x w).
Proof.
  intro H. unfold slider_input, seq.
  change (slider_value (slider (set_slider_value (JS.Num (JS.Fin x)) w)))
    with (JS.Num (JS.Fin x)).
  assert (Sm : same_seek w (set_slider_value (JS.Num (JS.Fin x)) w))
    by (repeat split; reflexivity).
  split.
  - apply seek_nicely_inv. eapply same_seek_timers_ok; [exact Sm|].
    apply inv_timers_ok, H.
  - eapply keeps_trans; [apply same_seek_keeps, Sm|apply seek_nicely_keeps].
Qed.

(** A timeout can only expire while a finite time is applied. *)
Lemma fire_some_seeking (w : world) (o : outcome) (w' : world) :
  inv c w ->
  fire c w = Some (o, w') ->
  Seeking w = true /\ timers w = 1%nat /\
  JS.isFinite (JS.to_number (seek_active w)) = true /\
  exists p, seek_pending w = JS.Num p.
Proof.
  intros (H1 & H2 & _) Hf.
  assert (Hs : Seeking w = true).
  { destruct (Seeking w) eqn:E; [reflexivity|].
    destruct (H2 eq_refl) as [Ht _]. rewrite (fire_quiet c w Ht) in Hf.
    discriminate. }
  destruct (H1 Hs) as [Ht Hp].
  destruct (JS.isFinite (JS.to_number (seek_active w))) eqn:F.
  - repeat split; try assumption.
    destruct (seek_pending w) as [| |p]; try discriminate. exists p. reflexivity.
  - rewrite (fire_quiet c w Ht) in Hf. discriminate.
Qed.

(** What an expiring timeout does to a state that satisfies [inv]. *)
Lemma fire_inv (w : world) (o : outcome) (w' : world) :
  inv c w ->
  fire c w = Some (o, w') ->
  inv c w' /\
  (o = Cleared <-> JS.neq (seek_pending w) (seek_active w) = false) /\
  (o = Cleared -> Idle w' = true /\ forall b, seeking b w' = false) /\
  (o = Reissued -> Seeking w' = true /\ cls w' = cls w).
Proof.
  intros I Hf.
  destruct (fire_some_seeking w o w' I Hf) as (Hs & Ht & _ & p & Ep).
  destruct I as (H1 & H2 & H3).
  destruct (JS.neq (seek_pending w) (seek_active w)) eqn:Hn.
  - assert (G : exists w1,
               fire c w = Some (Reissued, w1) /\
               timers w1 = (if JS.isFinite p then 1 else 0)%nat /\
               seek_active w1 = JS.Num p /\ seek_pending w1 = JS.Num p /\
               cls w1 = cls w).
    { destruct (JS.isFinite p) eqn:F.
      - destruct (fire_changed c w p Ht Ep F Hn)
          as (w1 & Hf1 & Ht1 & Ha1 & Hp1 & _ & _ & Hc1 & _).
        exists w1. repeat split; assumption.
      - destruct (fire_changed_throw c w p Ht Ep F Hn)
          as (w1 & Hf1 & Ht1 & Ha1 & Hp1 & _ & _ & Hc1 & _).
        exists w1. repeat split; assumption. }
    destruct G as (w1 & Hf1 & Ht1 & Ha1 & Hp1 & Hc1).
    rewrite Hf1 in Hf. injection Hf as <- <-.
    assert (S1 : Seeking w1 = true) by (unfold Seeking; rewrite Ha1; reflexivity).
    split.
    { unfold inv. rewrite S1, Ht1, Hp1, Ha1.
      split; [intros _; split; reflexivity|].
      split; [discriminate|].
      intros b Hb. unfold seeking. rewrite Hc1. apply (H3 b Hb). }
    split; [split; discriminate|].
    split; [discriminate|]. intros _. split; assumption.
  - destruct (fire_unchanged c w Ht Hn)
      as (w1 & Hf1 & Ht1 & Ha1 & Hp1 & _ & _ & _ & Hm).
    rewrite Hf1 in Hf. injection Hf as <- <-.
    assert (S1 : Seeking w1 = false) by (unfold Seeking; rewrite Ha1; reflexivity).
    assert (M1 : forall b, seeking b w1 = false).
    { intro b. rewrite Hm. destruct (present c b) eqn:Eb; [reflexivity|].
      apply H3, Eb. }
    split.
    { unfold inv. rewrite S1, Ht1.
      split; [discriminate|]. split; [intros _; split; [reflexivity|exact M1]|].
      intros b _. apply M1. }
    split; [split; reflexivity|].
    split; [|discriminate].
    intros _. split; [unfold Idle; rewrite S1; reflexivity | exact M1].
Qed.

Lemma guard_some (b : bool) (x w' : world) :
  guard b x = Some w' -> x = w'.
Proof. destruct b; simpl; congruence. Qed.

Lemma init_inv (v : video_t) (s : slider_t) : inv c (init c v s).
Proof.
  unfold init, seq, when, slider_from_video.
  destruct (play_button c), (slider_range c), (key_target c); simpl;
    destruct (paused v); simpl;
    try destruct (negb (JS.isFinite (duration v))); simpl;
    (split; [discriminate|split; [intros _; split; [reflexivity|intros []; reflexivity]
                                 |intros [] _; reflexivity]]).
Qed.

Lemma step_inv (a : action) (w w' : world) :
  inv c w -> step c a w = Some w' -> inv c w'.
Proof.
  intros H Hs. destruct a; simpl in Hs;
    try (apply guard_some in Hs; subst w').
  - injection Hs as <-. apply play_pause_inv, H.
  - apply play_pause_inv, H.
  - apply loop_toggle_inv, H.
  - apply rewind_inv, H.
  - apply prev_frame_inv, H.
  - apply next_frame_inv, H.
  - apply forward_inv, H.
  - apply slider_input_inv, H.
  - apply keydown_inv, H.
  - destruct (fire c w) as [[o w1]|] eqn:Hf; simpl in Hs; [|discriminate].
    injection Hs as <-. apply (fire_inv w o w1 H Hf).
  - eapply same_seek_inv; [|exact H]. repeat split; reflexivity.
  - eapply same_seek_inv; [|exact H]. repeat split; reflexivity.
  - eapply same_seek_inv; [apply same_seek_slider_from_video|exact H].
  - injection Hs as <-. eapply same_seek_inv; [|exact H].
    repeat split; reflexivity.
Qed.

(** Only an expiring timeout removes a marker. *)
Lemma step_keeps (a : action) (w w' : world) :
  inv c w -> a <> Timeout -> step c a w = Some w' -> keeps w w'.
Proof.
  intros H Ha Hs. destruct a; simpl in Hs;
    try (apply guard_some in Hs; subst w'); try congruence.
  - injection Hs as <-. apply play_pause_inv, H.
  - apply play_pause_inv, H.
  - apply loop_toggle_inv, H.
  - apply rewind_inv, H.
  - apply prev_frame_inv, H.
  - apply next_frame_inv, H.
  - apply forward_inv, H.
  - apply slider_input_inv, H.
  - apply keydown_inv, H.
  - intros [] Hb; exact Hb.
  - intros [] Hb; exact Hb.
  - apply same_seek_keeps, same_seek_slider_from_video.
  - injection Hs as <-. intros [] Hb; exact Hb.
Qed.

Lemma reachable_inv (w : world) : reachable c w -> inv c w.
Proof.
  induction 1 as [v s | a w w' _ IH Hs].
  - apply init_inv.
  - eapply step_inv; eassumption.
Qed.

End Reachable.

(** A seek operation whose button exists enters [Seeking] with that
    button marked ([forward()] only for a finite duration). *)
Lemma seek_op_marks (c : controls) (b : button) (w : world) :
  present c b = true ->
  (b = Forward -> JS.isFinite (duration (video w)) = true) ->
  Seeking (seek_op c b w) = true /\ seeking b (seek_op c b w) = true.
Proof.
  intros Hb Hfin.
  assert (G : forall n : JS.num,
             let w' := seek_nicely c (JS.Num n)
                         (when (present c b) (set_seeking b true)
                            (when (key_target c) focus w)) in
             Seeking w' = true /\ seeking b w' = true).
  { intro n. cbv zeta. split; [apply seek_nicely_pending|].
    rewrite Hb.
    pose proof (prologue_marks (key_target c) b w) as M.
    destruct b; unfold seeking in *; rewrite seek_nicely_cls; exact M. }
  destruct b; simpl in *.
  - apply (G (JS.Fin 0)).
  - unfold prev_frame, seq. apply G.
  - unfold next_frame, seq. apply G.
  - unfold forward, seq.
    destruct (prologue_frame (key_target c) false Forward w) as (Hv & _).
    simpl in Hv. rewrite Hv, (Hfin eq_refl). apply G.
Qed.


(** ** forward *)

(** C8.  With a duration that is not finite, [forward()] assigns no
    position, requests no debounced seek (seek state and timers are as
    before) and sets no class; with a finite duration it marks the forward
    button, when present, and requests a debounced seek to the duration. *)
Theorem forward_guarded_by_finite_duration :
  forall (c : controls) (w : world),
    (JS.isFinite (duration (video w)) = false ->
       video (forward c w) = video w /\
       cls (forward c w) = cls w /\
       slider (forward c w) = slider w /\
       seek_active (forward c w) = seek_active w /\
       seek_pending (forward c w) = seek_pending w /\
       timers (forward c w) = timers w /\
       set_times (trace (forward c w)) = set_times (trace w))
    /\
    (JS.isFinite (duration (video w)) = true ->
       forward c w
       = seek_nicely c (JS.Num (duration (video w)))
           (when (forward_button c) (set_seeking Forward true)
              (when (key_target c) focus w)) /\
       Seeking (forward c w) = true /\
       seek_pending (forward c w) = JS.Num (duration (video w)) /\
       (forward_button c = true -> seeking Forward (forward c w) = true)).
Proof.
  intros c w. split; intro H.
  - unfold forward, seq, when.
    destruct (key_target c); simpl; rewrite H; simpl; repeat split; reflexivity.
  - assert (E : forward c w
                = seek_nicely c (JS.Num (duration (video w)))
                    (when (forward_button c) (set_seeking Forward true)
                       (when (key_target c) focus w))).
    { unfold forward, seq.
      destruct (prologue_frame (key_target c) false Forward w) as (Hv & _).
      simpl in Hv. rewrite Hv, H.
      destruct (prologue_frame (key_target c) (forward_button c) Forward w)
        as (Hv' & _).
      unfold when in *. destruct (key_target c), (forward_button c); reflexivity. }
    rewrite E. split; [reflexivity|].
    destruct (seek_nicely_pending c (duration (video w))
                (when (forward_button c) (set_seeking Forward true)
                   (when (key_target c) focus w))) as [Hs Hp].
    repeat split; try assumption.
    intro Hb. unfold seeking. rewrite seek_nicely_cls, Hb.
    destruct (key_target c); reflexivity.
Qed.

Lemma forward_guarded_by_finite_duration_witness :
  let live := init all_controls (mkVideo (JS.Fin 3) JS.PInf false false false)
                sample_slider in
  let clip := init all_controls (sample_video 3 10 false) sample_slider in
  cls (forward all_controls live) = cls live /\
  seek_pending (forward all_controls clip) = JS.Num (JS.Fin 10).
Proof.
  intros live clip. split.
  - apply (proj1 (forward_guarded_by_finite_duration all_controls live)).
    reflexivity.
  - apply (proj2 (forward_guarded_by_finite_duration all_controls clip)).
    reflexivity.
Defined.

(** C10.  With a duration that is not finite, [forward()] still calls
    [focus()] on the key target when there is one, and that call is its
    only effect: media, classes, slider, seek state and timers are as
    before and the trace grows by the focus call alone. *)
Theorem forward_nonfinite_only_focuses :
  forall (c : controls) (w : world),
    JS.isFinite (duration (video w)) = false ->
    forward c w = when (key_target c) focus w /\
    trace (forward c w)
    = (if key_target c then EFocus :: trace w else trace w) /\
    video (forward c w) = video w /\
    cls (forward c w) = cls w /\
    slider (forward c w) = slider w /\
    seek_active (forward c w) = seek_active w /\
    seek_pending (forward c w) = seek_pending w /\
    timers (forward c w) = timers w.
Proof.
  intros c w H. unfold forward, seq, when.
  destruct (key_target c); simpl; rewrite H; simpl; repeat split; reflexivity.
Qed.

Lemma forward_nonfinite_only_focuses_witness :
  let live := init all_controls (mkVideo (JS.Fin 3) JS.NaN false false false)
                sample_slider in
  trace (forward all_controls live) = EFocus :: trace live.
Proof.
  intro live.
  apply (forward_nonfinite_only_focuses all_controls live). reflexivity.
Defined.

(** ** rewind *)

(** C9.  [rewind()] on an idle controller whose media is already at
    position 0 still assigns position 0 to the media, marks the rewind
    button when present and is in flight with pending target 0; when the
    timeout expires the callback takes the clearing path: the controller
    is idle, no timeout is left, no present button carries [seeking], and
    the media is still at 0. *)
Theorem rewind_at_zero_completes :
  forall (c : controls) (w : world),
    Idle w = true ->
    timers w = O ->
    currentTime (video w) = JS.Fin 0 ->
    current_time w = JS.Num (JS.Fin 0) /\
    trace (rewind c w)
    = ESetTimeout :: ESetTime (JS.Fin 0) :: EPause
        :: (if key_target c then EFocus :: trace w else trace w) /\
    currentTime (video (rewind c w)) = JS.Fin 0 /\
    Seeking (rewind c w) = true /\
    current_time (rewind c w) = JS.Num (JS.Fin 0) /\
    timers (rewind c w) = 1%nat /\
    (rewind_button c = true -> seeking Rewind (rewind c w) = true) /\
    exists w2 : world,
      (forall fuel : nat, (1 <= fuel)%nat ->
         settle c fuel (rewind c w) = ([Cleared], w2)) /\
      fire c w2 = None /\
      Idle w2 = true /\
      (forall b, present c b = true -> seeking b w2 = false) /\
      currentTime (video w2) = JS.Fin 0 /\
      trace w2 = trace (rewind c w).
Proof.
  intros c w Hi Ht Hc.
  unfold Idle in Hi. apply negb_true_iff in Hi.
  split.
  { unfold current_time. unfold Seeking in Hi. rewrite Hi, Hc. reflexivity. }
  unfold rewind, seq.
  destruct (prologue_frame (key_target c) (rewind_button c) Rewind w)
    as (Hv & Ha & _ & Htm & _ & _ & Hs & Htr).
  set (w0 := when (rewind_button c) (set_seeking Rewind true)
               (when (key_target c) focus w)) in *.
  assert (S0 : Seeking w0 = false) by (rewrite Hs; exact Hi).
  destruct (seek_nicely_from_idle c (JS.Fin 0) w0 S0 eq_refl)
    as (T1 & A1 & P1 & R1 & C1 & _ & K1).
  set (w1 := seek_nicely c (JS.Num (JS.Fin 0)) w0) in *.
  rewrite Htm, Ht in T1.
  split; [rewrite R1, Htr; reflexivity|].
  split; [exact C1|].
  split; [unfold Seeking; rewrite A1; reflexivity|].
  split; [unfold current_time; rewrite A1; exact P1|].
  split; [exact T1|].
  split.
  { intro Hb. unfold seeking. rewrite K1. unfold w0. rewrite Hb.
    destruct (key_target c); reflexivity. }
  assert (Hn : JS.neq (seek_pending w1) (seek_active w1) = false)
    by (rewrite P1, A1; apply num_neq_refl_fin).
  destruct (fire_unchanged c w1 T1 Hn)
    as (w2 & Hf & Htm2 & Ha2 & _ & Htr2 & Hv2 & _ & Hm).
  exists w2.
  split.
  { intros fuel Hfuel. destruct fuel as [|k]; [lia|].
    simpl. rewrite Hf. rewrite settle_quiet by assumption. reflexivity. }
  split; [apply fire_quiet; assumption|].
  split; [unfold Idle, Seeking; rewrite Ha2; reflexivity|].
  split; [intros b Hb; rewrite Hm, Hb; reflexivity|].
  split; [rewrite Hv2; exact C1 | exact Htr2].
Qed.

Lemma rewind_at_zero_completes_witness :
  let w := init all_controls (sample_video 0 10 true) sample_slider in
  set_times (trace (rewind all_controls w)) = [JS.Fin 0] /\
  fst (settle all_controls 3 (rewind all_controls w)) = [Cleared].
Proof.
  intro w.
  destruct (rewind_at_zero_completes all_controls w)
    as (_ & Htr & _ & _ & _ & _ & _ & w2 & Hs & _); try reflexivity.
  split.
  - rewrite Htr. reflexivity.
  - rewrite (Hs 3%nat) by lia. reflexivity.
Defined.

(** ** The seeking markers and the seek state *)

(** C3, as stated, fails: on a page with every control present, a slider
    input event puts the controller in [Seeking] while no seek button
    carries the [seeking] class. *)
Lemma slider_seek_sets_no_marker :
  let w0 := init all_controls (sample_video 1 10 true) sample_slider in
  let w := slider_input all_controls 4 w0 in
  step all_controls (SliderInput 4) w0 = Some w /\
  reachable all_controls w /\
  Seeking w = true /\
  (forall b, seeking b w = false) /\
  ~ (forall (c : controls) (w : world),
       reachable c w -> Seeking w = true -> exists b, seeking b w = true).
Proof.
  intros w0 w.
  assert (R : reachable all_controls w).
  { apply (reachable_step all_controls (SliderInput 4) w0 w).
    - apply reachable_init.
    - reflexivity. }
  split; [reflexivity|]. split; [exact R|]. split; [reflexivity|].
  split; [intros []; reflexivity|].
  intro H. destruct (H all_controls w R eq_refl) as [b Hb].
  destruct b; discriminate Hb.
Qed.

(** C3, amended.  In every reachable state: a [seeking] class is set only
    while the controller is seeking; rewind, prev_frame, next_frame and
    forward (finite duration) enter [Seeking] with their own button
    marked when it exists; a slider input enters [Seeking] and changes no
    class; no step other than an expiring timeout removes a marker; and
    an expiring timeout clears every marker and returns to idle exactly
    when the pending time did not change, otherwise it stays seeking with
    the classes as they were. *)
Theorem seeking_markers_follow_seek_state :
  forall (c : controls) (w : world),
    reachable c w ->
    (forall b, seeking b w = true -> Seeking w = true) /\
    (forall b,
        present c b = true ->
        (b = Forward -> JS.isFinite (duration (video w)) = true) ->
        Seeking (seek_op c b w) = true /\ seeking b (seek_op c b w) = true) /\
    (forall x : Q,
        Seeking (slider_input c x w) = true /\
        cls (slider_input c x w) = cls w) /\
    (forall (a : action) (w' : world),
        a <> Timeout -> step c a w = Some w' ->
        forall b, seeking b w = true -> seeking b w' = true) /\
    (forall (o : outcome) (w' : world),
        fire c w = Some (o, w') ->
        (o = Cleared <-> JS.neq (seek_pending w) (seek_active w) = false) /\
        (o = Cleared -> Idle w' = true /\ forall b, seeking b w' = false) /\
        (o = Reissued -> Seeking w' = true /\ cls w' = cls w)).
Proof.
  intros c w R. pose proof (reachable_inv c w R) as I.
  split.
  { intros b Hb. destruct (Seeking w) eqn:E; [reflexivity|].
    destruct I as (_ & I2 & _). destruct (I2 E) as [_ M].
    rewrite M in Hb. discriminate. }
  split; [intros b Hb Hf; apply seek_op_marks; assumption|].
  split.
  { intro x. destruct (slider_input_marks_nothing c x w) as (Hs & _ & Hc).
    split; assumption. }
  split.
  { intros a w' Ha Hs. exact (step_keeps c a w w' I Ha Hs). }
  intros o w' Hf. apply (fire_inv c w o w' I Hf).
Qed.

Lemma seeking_markers_follow_seek_state_witness :
  let w := next_frame all_controls
             (init all_controls (sample_video 1 10 true) sample_slider) in
  Seeking w = true /\
  Seeking (seek_op all_controls Rewind w) = true /\
  seeking Rewind (seek_op all_controls Rewind w) = true.
Proof.
  intro w.
  assert (R : reachable all_controls w).
  { apply (reachable_step all_controls ClickNext
             (init all_controls (sample_video 1 10 true) sample_slider) w).
    - apply reachable_init.
    - reflexivity. }
  destruct (seeking_markers_follow_seek_state all_controls w R)
    as (H1 & H2 & _).
  split; [apply (H1 Next); reflexivity|].
  apply (H2 Rewind); [reflexivity | discriminate].
Defined.


(** ** current_time *)

(** C2.  [current_time()] returns the media position while
    [seek_active] is [undefined] or [null] and the pending target while
    it holds a number.  Over the life of the controller: at load it is
    the media position; after any burst of requests that ends with a
    number [n] the controller is seeking and it is [n], whatever position
    the media reports; when the timeout takes the clearing path the
    controller is idle and it is the media position again; and when the
    timeout re-issues the seek it is still the pending target. *)
Theorem current_time_pending_while_seeking :
  forall (c : controls) (w : world),
    (seek_active w = JS.Undefined \/ seek_active w = JS.Null ->
       Idle w = true /\ current_time w = JS.Num (currentTime (video w))) /\
    (forall a : JS.num,
        seek_active w = JS.Num a ->
        Seeking w = true /\ current_time w = seek_pending w) /\
    (forall (v : video_t) (s : slider_t),
        Idle (init c v s) = true /\
        current_time (init c v s) = JS.Num (currentTime v)) /\
    (forall (ts : list JS.value) (n : JS.num),
        Seeking (requests c (ts ++ [JS.Num n]) w) = true /\
        current_time (requests c (ts ++ [JS.Num n]) w) = JS.Num n) /\
    (forall w' : world,
        fire c w = Some (Cleared, w') ->
        Idle w' = true /\
        current_time w' = JS.Num (currentTime (video w'))) /\
    (forall w' : world,
        reachable c w ->
        fire c w = Some (Reissued, w') ->
        Seeking w' = true /\ current_time w' = seek_pending w).
Proof.
  intros c w.
  split.
  { unfold Idle, Seeking, current_time. intros [H|H]; rewrite H; split; reflexivity. }
  split.
  { unfold Seeking, current_time. intros a H. rewrite H. split; reflexivity. }
  split.
  { intros v s. unfold init, seq, when, slider_from_video.
    destruct (play_button c), (slider_range c), (key_target c); simpl;
      destruct (paused v); simpl;
      try destruct (negb (JS.isFinite (duration v))); split; reflexivity. }
  split.
  { intros ts n. rewrite requests_snoc.
    destruct (seek_nicely_pending c n (requests c ts w)) as [Hs Hp].
    split; [exact Hs|].
    unfold current_time. unfold Seeking in Hs. rewrite Hs. exact Hp. }
  split.
  { intros w' Hf. unfold fire, timeout_callback in Hf.
    destruct (timers w) as [|k]; [discriminate|].
    destruct (JS.neq _ _); [discriminate Hf|]. injection Hf as <-.
    destruct (clear_markers c (set_seek_active JS.Null (set_timers k w)))
      as (_ & _ & Ha & _).
    unfold Idle, Seeking, current_time. rewrite Ha. split; reflexivity. }
  intros w' R Hf.
  pose proof (reachable_inv c w R) as I.
  destruct (fire_some_seeking c w Reissued w' I Hf) as (_ & Ht & _ & p & Ep).
  destruct (fire_inv c w Reissued w' I Hf) as (_ & [_ Hc] & _ & _).
  assert (Hn : JS.neq (seek_pending w) (seek_active w) = true).
  { destruct (JS.neq (seek_pending w) (seek_active w)); [reflexivity|].
    specialize (Hc eq_refl).
    discriminate. }
  assert (G : seek_active w' = JS.Num p /\ seek_pending w' = JS.Num p).
  { destruct (JS.isFinite p) eqn:F.
    - destruct (fire_changed c w p Ht Ep F Hn) as (w1 & Hf1 & _ & A & P & _).
      rewrite Hf1 in Hf. injection Hf as <-. split; assumption.
    - destruct (fire_changed_throw c w p Ht Ep F Hn)
        as (w1 & Hf1 & _ & A & P & _).
      rewrite Hf1 in Hf. injection Hf as <-. split; assumption. }
  destruct G as [A P]. unfold Seeking, current_time. rewrite A, P, Ep.
  split; reflexivity.
Qed.

Lemma current_time_pending_while_seeking_witness :
  let w0 := init all_controls (sample_video 1 10 true) sample_slider in
  let w := slider_input all_controls 7 (slider_input all_controls 2 w0) in
  current_time w0 = JS.Num (JS.Fin 1) /\
  current_time (requests all_controls ([JS.Num (JS.Fin 2)] ++ [JS.Num (JS.Fin 7)])
                  w0) = JS.Num (JS.Fin 7) /\
  exists w1 w2,
    fire all_controls w = Some (Reissued, w1) /\
    current_time w1 = JS.Num (JS.Fin 7) /\
    fire all_controls w1 = Some (Cleared, w2) /\
    current_time w2 = JS.Num (currentTime (video w2)).
Proof.
  intros w0 w.
  assert (R : reachable all_controls w).
  { apply (reachable_step all_controls (SliderInput 7)
             (slider_input all_controls 2 w0) w); [|reflexivity].
    apply (reachable_step all_controls (SliderInput 2) w0); [|reflexivity].
    apply reachable_init. }
  split.
  { exact (proj2 (proj1 (proj2 (proj2
      (current_time_pending_while_seeking all_controls w0)))
      (sample_video 1 10 true) sample_slider)). }
  split.
  { exact (proj2 (proj1 (proj2 (proj2 (proj2
      (current_time_pending_while_seeking all_controls w0))))
      [JS.Num (JS.Fin 2)] (JS.Fin 7))). }
  set (w1 := match fire all_controls w with Some (_, x) => x | None => w end).
  set (w2 := match fire all_controls w1 with Some (_, x) => x | None => w end).
  exists w1, w2.
  assert (F1 : fire all_controls w = Some (Reissued, w1))
    by (vm_compute; reflexivity).
  assert (F2 : fire all_controls w1 = Some (Cleared, w2))
    by (vm_compute; reflexivity).
  split; [exact F1|].
  split.
  { exact (proj2 (proj2 (proj2 (proj2 (proj2 (proj2
      (current_time_pending_while_seeking all_controls w))))) w1 R F1)). }
  split; [exact F2|].
  exact (proj2 (proj1 (proj2 (proj2 (proj2 (proj2
      (current_time_pending_while_seeking all_controls w1))))) w2 F2)).
Defined.

(** While a seek to 2 s is in flight and the slider asks for 7 s, the
    media still reports 2 s but [current_time()] is already 7 s. *)
Example current_time_not_stale :
  let w := requests all_controls [JS.Num (JS.Fin 2); JS.Num (JS.Fin 7)]
             (init all_controls (sample_video 1 10 true) sample_slider) in
  currentTime (video w) = JS.Fin 2 /\ current_time w = JS.Num (JS.Fin 7).
Proof. split; reflexivity. Qed.

(** ** Bursts of seek requests *)

Section InFlight.

Variable c : controls.

(** While a seek is in flight no listener other than the timeout
    callback changes [seek_active] or the number of pending timeouts. *)
Lemma seek_nicely_in_flight (t : JS.value) (w0 w : world) :
  Seeking w = true ->
  seek_active w0 = seek_active w -> timers w0 = timers w ->
  seek_active (seek_nicely c t w0) = seek_active w /\
  timers (seek_nicely c t w0) = timers w.
Proof.
  intros Hs Ha Ht.
  assert (S0 : Seeking w0 = true) by (unfold Seeking in *; rewrite Ha; exact Hs).
  destruct (seek_nicely_seeking_frame c t w0 S0) as (_ & _ & Ha' & Ht' & _).
  rewrite Ha', Ht'. split; assumption.
Qed.

Lemma seek_op_in_flight (b : button) (w : world) :
  Seeking w = true ->
  seek_active (seek_op c b w) = seek_active w /\
  timers (seek_op c b w) = timers w.
Proof.
  intro Hs.
  assert (G : forall t,
             seek_active (seek_nicely c t
                            (when (present c b) (set_seeking b true)
                               (when (key_target c) focus w)))
             = seek_active w /\
             timers (seek_nicely c t
                       (when (present c b) (set_seeking b true)
                          (when (key_target c) focus w)))
             = timers w).
  { intro t.
    destruct (prologue_frame (key_target c) (present c b) b w)
      as (_ & Ha & _ & Ht & _).
    apply seek_nicely_in_flight; assumption. }
  destruct b; simpl.
  - apply G.
  - unfold prev_frame, seq. apply G.
  - unfold next_frame, seq. apply G.
  - unfold forward, seq.
    destruct (JS.isFinite (duration (video (when (key_target c) focus w)))).
    + apply G.
    + destruct (key_target c); split; reflexivity.
Qed.

Lemma play_pause_in_flight (w : world) :
  Seeking w = true ->
  seek_active (play_pause c w) = seek_active w /\
  timers (play_pause c w) = timers w.
Proof.
  intro Hs. rewrite play_pause_unfold. cbv zeta.
  set (w0 := when (key_target c) focus w).
  assert (F0 : seek_active w0 = seek_active w /\ timers w0 = timers w)
    by (unfold w0; destruct (key_target c); split; reflexivity).
  set (w1 := if near_end w then rewind c w0 else w0).
  assert (F1 : seek_active w1 = seek_active w /\ timers w1 = timers w).
  { unfold w1. destruct (near_end w); [|exact F0].
    destruct F0 as [A0 T0].
    assert (S0 : Seeking w0 = true)
      by (unfold Seeking in *; rewrite A0; exact Hs).
    destruct (seek_op_in_flight Rewind w0 S0) as [A T]. simpl in A, T.
    rewrite A, T. split; assumption. }
  destruct (paused (video w1) || ended (video w1)); exact F1.
Qed.

Lemma keydown_in_flight (code : string) (w : world) :
  Seeking w = true ->
  seek_active (keydown c code w) = seek_active w /\
  timers (keydown c code w) = timers w.
Proof.
  intro Hs. unfold keydown.
  destruct (String.eqb code "KeyP"); [apply play_pause_in_flight, Hs|].
  destruct (String.eqb code "KeyL");
    [destruct (same_seek_loop_toggle c w) as (A & _ & T & _); split; assumption|].
  destruct (String.eqb code "KeyR"); [apply (seek_op_in_flight Rewind), Hs|].
  destruct (String.eqb code "BracketLeft"); [apply (seek_op_in_flight Prev), Hs|].
  destruct (String.eqb code "BracketRight"); [apply (seek_op_in_flight Next), Hs|].
  destruct (String.eqb code "KeyF"); [apply (seek_op_in_flight Forward), Hs|].
  split; reflexivity.
Qed.

Lemma step_in_flight (a : action) (w w' : world) :
  Seeking w = true ->
  a <> Timeout ->
  step c a w = Some w' ->
  seek_active w' = seek_active w /\ timers w' = timers w.
Proof.
  intros Hs Ha Hstep. destruct a; simpl in Hstep;
    try (apply guard_some in Hstep; subst w'); try congruence.
  - injection Hstep as <-. apply play_pause_in_flight, Hs.
  - apply play_pause_in_flight, Hs.
  - destruct (same_seek_loop_toggle c w) as (A & _ & T & _). split; assumption.
  - apply (seek_op_in_flight Rewind), Hs.
  - apply (seek_op_in_flight Prev), Hs.
  - apply (seek_op_in_flight Next), Hs.
  - apply (seek_op_in_flight Forward), Hs.
  - unfold slider_input, seq.
    apply seek_nicely_in_flight; [exact Hs | reflexivity | reflexivity].
  - apply keydown_in_flight, Hs.
  - split; reflexivity.
  - split; reflexivity.
  - destruct (same_seek_slider_from_video w) as (A & _ & T & _).
    split; assumption.
  - injection Hstep as <-. split; reflexivity.
Qed.

(** Once jammed, always jammed: whatever listeners run, the controller
    keeps seeking, no timeout is pending and every marker that is set
    stays set. *)
Lemma jammed_run (l : list action) : forall (w w' : world),
  inv c w -> jammed w -> run c l w = Some w' ->
  jammed w' /\ keeps w w' /\ seek_active w' = seek_active w.
Proof.
  induction l as [|a l IH]; intros w w' I [Hs Ht] Hr; simpl in Hr.
  - injection Hr as <-. repeat split; try assumption. intros b H. exact H.
  - destruct (step c a w) as [w1|] eqn:E; [|discriminate].
    assert (Ha : a <> Timeout).
    { intro; subst a. simpl in E. rewrite (fire_quiet c w Ht) in E.
      discriminate. }
    destruct (step_in_flight a w w1 Hs Ha E) as [A T].
    assert (J1 : jammed w1).
    { split; [unfold Seeking in *; rewrite A; exact Hs | rewrite T; exact Ht]. }
    destruct (IH w1 w' (step_inv c a w w1 I E) J1 Hr) as (J & K & A').
    split; [exact J|]. split; [|rewrite A'; exact A].
    eapply keeps_trans; [exact (step_keeps c a w w1 I Ha E) | exact K].
Qed.

End InFlight.

(** C1, at the failing input.  The media has no metadata yet, so its
    duration is NaN.  [rewind()] starts a debounced seek to 0; while its
    timeout is pending, [next_frame()] issues [seek_nicely(NaN)], because
    the comparison with the NaN duration fails and, unlike [forward()],
    it does not test [isFinite].  When the timeout expires the callback
    re-issues the seek, the setter of [currentTime] throws, and no new
    timeout is set: the position applied last stays 0, not the last
    request, and whatever listeners run afterwards, the controller keeps
    seeking and the [seeking] classes of the rewind and next buttons are
    never removed. *)
Theorem nan_request_never_clears :
  let w0 := init all_controls (mkVideo (JS.Fin 0) JS.NaN true false false)
              sample_slider in
  let w1 := rewind all_controls w0 in
  let w2 := next_frame all_controls w1 in
  reachable all_controls w2 /\
  timers w1 = 1%nat /\
  seek_pending w2 = JS.Num JS.NaN /\
  timers w2 = 1%nat /\
  exists w3 : world,
    fire all_controls w2 = Some (Reissued, w3) /\
    applied w3 = JS.Num (JS.Fin 0) /\
    trace w3 = ETypeError :: EPause :: trace w2 /\
    forall (l : list action) (w' : world),
      run all_controls l w3 = Some w' ->
      Seeking w' = true /\ timers w' = O /\
      fire all_controls w' = None /\
      seeking Rewind w' = true /\ seeking Next w' = true.
Proof.
  intros w0 w1 w2.
  assert (R1 : reachable all_controls w1).
  { apply (reachable_step all_controls ClickRewind w0); [|reflexivity].
    apply reachable_init. }
  assert (R2 : reachable all_controls w2).
  { apply (reachable_step all_controls ClickNext w1); [exact R1|reflexivity]. }
  assert (P2 : seek_pending w2 = JS.Num JS.NaN) by (vm_compute; reflexivity).
  assert (T2 : timers w2 = 1%nat) by (vm_compute; reflexivity).
  assert (N2 : JS.neq (seek_pending w2) (seek_active w2) = true)
    by (rewrite P2; reflexivity).
  split; [exact R2|]. split; [vm_compute; reflexivity|]. split; [exact P2|].
  split; [exact T2|].
  destruct (fire_changed_throw all_controls w2 JS.NaN T2 P2 eq_refl N2)
    as (w3 & Hf & T3 & A3 & P3 & Tr3 & _ & C3 & _).
  exists w3. split; [exact Hf|].
  split; [unfold applied; rewrite Tr3; reflexivity|].
  split; [exact Tr3|].
  intros l w' Hr.
  assert (R3 : reachable all_controls w3).
  { apply (reachable_step all_controls Timeout w2); [exact R2|].
    change (option_map snd (fire all_controls w2) = Some w3).
    rewrite Hf. reflexivity. }
  assert (J3 : jammed w3)
    by (split; [unfold Seeking; rewrite A3; reflexivity | exact T3]).
  destruct (jammed_run all_controls l w3 w' (reachable_inv _ _ R3) J3 Hr)
    as ([S T] & K & _).
  split; [exact S|]. split; [exact T|].
  split; [apply fire_quiet, T|].
  split; apply K; unfold seeking; rewrite C3; vm_compute; reflexivity.
Qed.

Lemma nan_request_never_clears_witness :
  exists w' : world, Seeking w' = true /\ seeking Next w' = true.
Proof.
  destruct nan_request_never_clears as (_ & _ & _ & _ & w3 & Hf & _ & _ & H).
  destruct (run all_controls [ClickPlay; KeyDown "KeyR"; SliderInput 3] w3)
    as [w'|] eqn:E.
  - exists w'. destruct (H _ _ E) as (S & _ & _ & _ & N).
    split; [exact S | exact N].
  - exists w3. destruct (H [] w3 eq_refl) as (S & _ & _ & _ & N).
    split; [exact S | exact N].
Defined.



(** The same burst run on a page that was idle: the first request starts
    the timeout, the others arrive while it is pending. *)
Example seek_burst_run :
  let w := init all_controls (sample_video 5 10 false) sample_slider in
  let ts := [JS.Num (JS.Fin 2); JS.Num (JS.Fin 3); JS.Num (JS.Fin 7)] in
  let r := settle all_controls 5 (requests all_controls ts w) in
  fst r = [Reissued; Cleared] /\
  set_times (trace (snd r)) = [JS.Fin 7; JS.Fin 2] /\
  currentTime (video (snd r)) = JS.Fin 7 /\
  no_marker (snd r) = true.
Proof. repeat split; reflexivity. Qed.


(** ** Arithmetic of the frame steps *)








(** ** play_pause *)


(** C4, counterexample.  A seek to 5 s is in flight, the user starts
    playback and then drags the slider to 9.85 s, so the controller is
    seeking, [current_time()] is 9.85 of 10 s and the media plays.
    [play_pause()] calls [rewind()], which only replaces the pending time
    by 0, and then pauses: no position is assigned and playback does not
    start.  At the edge of the window the double arithmetic decides: 1.0
    is less than 0.2 s before the double 1.2, and no rewind happens. *)
Lemma play_pause_while_seeking_pauses :
  let w0 := init all_controls (sample_video 5 10 true) sample_slider in
  let w := slider_input all_controls (JS.dbl (985#100))
             (play_pause all_controls (slider_input all_controls 5 w0)) in
  let w' := play_pause all_controls w in
  (reachable all_controls w /\
   Seeking w = true /\
   current_time w = JS.Num (JS.Fin (JS.dbl (985#100))) /\
   duration (video w) = JS.Fin 10 /\
   paused (video w) = false /\
   near_end w = true /\
   seek_pending w' = JS.Num (JS.Fin 0) /\
   currentTime (video w') = JS.Fin 5 /\
   paused (video w') = true /\
   trace w' = EPause :: EFocus :: EFocus :: trace w) /\
  (let v := init all_controls (sample_video 1 (JS.dbl (12#10)) true)
              sample_slider in
   JS.dbl (12#10) - 1 < 1#5 /\
   near_end v = false /\
   trace (play_pause all_controls v) = EPlay :: EFocus :: trace v).
Proof.
  intros w0 w w'. split.
  - split.
    { apply (reachable_step all_controls (SliderInput (JS.dbl (985#100)))
               (play_pause all_controls (slider_input all_controls 5 w0)));
        [|reflexivity].
      apply (reachable_step all_controls ClickVideo
               (slider_input all_controls 5 w0)); [|reflexivity].
      apply (reachable_step all_controls (SliderInput 5) w0); [|reflexivity].
      apply reachable_init. }
    repeat split; vm_compute; reflexivity.
  - cbv zeta. split; [vm_compute; reflexivity|].
    split; vm_compute; reflexivity.
Qed.



(** ** Frame stepping *)

Section FrameRequests.

Variable c : controls.

(** The request issued by [next_frame()]. *)
Lemma next_frame_request (w : world) :
  next_frame c w
  = seek_nicely c
      (JS.Num (next_target (current_time w) (duration (video w))))
      (when (next_button c) (set_seeking Next true)
         (when (key_target c) focus w)).
Proof.
  destruct (prologue_frame (key_target c) (next_button c) Next w)
    as (Hv & _ & _ & _ & _ & Hct & _).
  unfold next_frame, seq.
  set (w' := when (next_button c) (set_seeking Next true)
               (when (key_target c) focus w)) in *.
  cbv beta. rewrite Hct, Hv. reflexivity.
Qed.


Lemma current_time_seeking (w : world) :
  Seeking w = true -> current_time w = seek_pending w.
Proof. unfold Seeking, current_time. intros ->. reflexivity. Qed.

(** What a frame step leaves behind: the controller seeks the request. *)
Lemma next_frame_pending (w : world) :
  Seeking (next_frame c w) = true /\
  seek_pending (next_frame c w)
  = JS.Num (next_target (current_time w) (duration (video w))) /\
  current_time (next_frame c w)
  = JS.Num (next_target (current_time w) (duration (video w))) /\
  duration (video (next_frame c w)) = duration (video w) /\
  (next_button c = true -> seeking Next (next_frame c w) = true).
Proof.
  rewrite next_frame_request.
  set (w0 := when (next_button c) (set_seeking Next true)
               (when (key_target c) focus w)).
  destruct (seek_nicely_pending c
              (next_target (current_time w) (duration (video w))) w0)
    as [S P].
  split; [exact S|]. split; [exact P|]. split; [|split].
  - rewrite (current_time_seeking _ S). exact P.
  - rewrite seek_nicely_duration.
    destruct (prologue_frame (key_target c) (next_button c) Next w) as (Hv & _).
    fold w0 in Hv. rewrite Hv. reflexivity.
  - intro Hb. unfold seeking. rewrite seek_nicely_cls. unfold w0.
    rewrite Hb. destruct (key_target c); reflexivity.
Qed.


End FrameRequests.






(** C5, counterexample.  At the current time [2^53] the sum
    [Math.floor(t * 3) + 1.5] rounds back to [t * 3], so the computed
    value is [t] itself: with the duration [2^54] no clamp applies and
    [next_frame()] requests the current time again, not a later one. *)
Lemma next_frame_stalls_at_large_time :
  let t := 9007199254740992 in
  let w := init all_controls (sample_video t 18014398509481984 true)
             sample_slider in
  current_time w = JS.Num (JS.Fin t) /\
  next_of (current_time w) = JS.Fin t /\
  seek_pending (next_frame all_controls w) = JS.Num (JS.Fin t) /\
  ~ t < t.
Proof.
  cbv zeta. split; [vm_compute; reflexivity|].
  split; [vm_compute; reflexivity|].
  split; [vm_compute; reflexivity|].
  apply Qlt_irrefl.
Qed.



(** C6, counterexample.  At the current time [2^53] the difference
    [Math.ceil(t * 3) - 1.5] rounds back to [t * 3], so the computed
    value is [t] itself, and [prev_frame()] requests the current time
    again, not an earlier one. *)
Lemma prev_frame_stalls_at_large_time :
  let t := 9007199254740992 in
  let w := init all_controls (sample_video t 18014398509481984 true)
             sample_slider in
  current_time w = JS.Num (JS.Fin t) /\
  prev_of (current_time w) = JS.Fin t /\
  seek_pending (prev_frame all_controls w) = JS.Num (JS.Fin t) /\
  ~ t < t.
Proof.
  cbv zeta. split; [vm_compute; reflexivity|].
  split; [vm_compute; reflexivity|].
  split; [vm_compute; reflexivity|].
  apply Qlt_irrefl.
Qed.



(** C7, counterexample.  At the current time [2^52 + 1], far from 0 and
    from the duration [2^53], neither clamp applies; [prev_frame()]
    requests the current time itself and [next_frame()] then requests
    [2^52 + 2], a full second after the original time. *)
Lemma prev_then_next_drifts_at_large_time :
  let t := 4503599627370497 in
  let w := init all_controls (sample_video t 9007199254740992 true)
             sample_slider in
  let w1 := prev_frame all_controls w in
  let w2 := next_frame all_controls w1 in
  current_time w = JS.Num (JS.Fin t) /\
  prev_target (current_time w) = prev_of (current_time w) /\
  next_target (current_time w1) (duration (video w1))
  = next_of (current_time w1) /\
  seek_pending w1 = JS.Num (JS.Fin t) /\
  seek_pending w2 = JS.Num (JS.Fin (t + 1)) /\
  ~ Qabs (t + 1 - t) <= 1#3.
Proof.
  cbv zeta. repeat split; try (vm_compute; reflexivity).
  (vm_compute; intro H; apply H; reflexivity).
Qed.



(** ** Further properties of video.js *)

(** *** The debounce timeout *)





(** X3.  While a seek is in flight, no seek operation and no slider input
    touches the media element, starts a timeout or replaces the applied
    position: the request only becomes the pending time. *)
Theorem requests_in_flight_leave_media_alone :
  forall (c : controls) (w : world),
    Seeking w = true ->
    (forall b : button,
        video (seek_op c b w) = video w /\
        timers (seek_op c b w) = timers w /\
        seek_active (seek_op c b w) = seek_active w /\
        set_times (trace (seek_op c b w)) = set_times (trace w)) /\
    (forall x : Q,
        video (slider_input c x w) = video w /\
        timers (slider_input c x w) = timers w /\
        seek_active (slider_input c x w) = seek_active w /\
        trace (slider_input c x w) = trace w /\
        seek_pending (slider_input c x w) = num_of x).
Proof.
  intros c w Hs.
  assert (G : forall (b : button) (t : JS.value),
             let w0 := when (present c b) (set_seeking b true)
                         (when (key_target c) focus w) in
             video (seek_nicely c t w0) = video w /\
             timers (seek_nicely c t w0) = timers w /\
             seek_active (seek_nicely c t w0) = seek_active w /\
             set_times (trace (seek_nicely c t w0)) = set_times (trace w)).
  { intros b t.
    destruct (prologue_frame (key_target c) (present c b) b w)
      as (Hv & Ha & _ & Ht & _ & _ & Hs0 & Htr).
    cbv zeta. rewrite Hs in Hs0.
    destruct (seek_nicely_seeking_frame c t _ Hs0)
      as (Hv' & _ & Ha' & Ht' & Htr' & _).
    rewrite Hv', Ha', Ht', Htr', Hv, Ha, Ht, Htr.
    repeat split. destruct (key_target c); reflexivity. }
  split.
  - intros [].
    + apply (G Rewind).
    + apply (G Prev).
    + apply (G Next).
    + simpl. unfold forward, seq.
      destruct (prologue_frame (key_target c) false Forward w) as (Hv & _).
      simpl in Hv. rewrite Hv.
      destruct (JS.isFinite (duration (video w))); [apply (G Forward)|].
      destruct (key_target c); repeat split; reflexivity.
  - intro x. unfold slider_input, seq.
    change (slider_value (slider (set_slider_value (JS.Num (JS.Fin x)) w)))
      with (JS.Num (JS.Fin x)).
    assert (Hs0 : Seeking (set_slider_value (JS.Num (JS.Fin x)) w) = true)
      by exact Hs.
    destruct (seek_nicely_seeking_frame c (JS.Num (JS.Fin x)) _ Hs0)
      as (Hv' & _ & Ha' & Ht' & Htr' & Hp').
    rewrite Hv', Ha', Ht', Htr', Hp'. repeat split.
Qed.

Lemma requests_in_flight_leave_media_alone_witness :
  let w := rewind all_controls
             (init all_controls (sample_video 5 10 false) sample_slider) in
  video (seek_op all_controls Next w) = video w.
Proof.
  intro w.
  destruct (requests_in_flight_leave_media_alone all_controls w) as [H _];
    [reflexivity|].
  apply (H Next).
Defined.

(** *** The slider and the play button over all reachable states *)

Section Mirrors.

Variable c : controls.

Lemma seek_nicely_sync (t : JS.value) (w : world) :
  slider_sync c (seek_nicely c t w).
Proof.
  intros Hs _. unfold seek_nicely, seq, when, or_throw, video_set_currentTime.
  rewrite Hs.
  destruct (JS.not_null (seek_active (set_slider_value t w)));
    [reflexivity|].
  destruct (JS.isFinite (JS.to_number t)); reflexivity.
Qed.

Lemma sync_frame (w w' : world) :
  seek_active w' = seek_active w -> seek_pending w' = seek_pending w ->
  slider w' = slider w -> slider_sync c w -> slider_sync c w'.
Proof.
  intros Ha Hp Hs H Hr Hk. unfold Seeking in *. rewrite Hs, Hp.
  apply H; [exact Hr|]. unfold Seeking. rewrite <- Ha. exact Hk.
Qed.

Lemma sync_idle (w : world) : Seeking w = false -> slider_sync c w.
Proof. intros E _ H. congruence. Qed.

Lemma sync_focus (w : world) :
  slider_sync c w -> slider_sync c (when (key_target c) focus w).
Proof.
  apply sync_frame; destruct (key_target c); reflexivity.
Qed.

Lemma sync_toggle (w : world) :
  slider_sync c w ->
  slider_sync c (if paused (video w) || ended (video w) then video_play w
                 else video_pause w).
Proof.
  apply sync_frame; destruct (paused (video w) || ended (video w)); reflexivity.
Qed.

Lemma sync_play_pause (w : world) :
  slider_sync c w -> slider_sync c (play_pause c w).
Proof.
  intro H. rewrite play_pause_unfold. cbv zeta. apply sync_toggle.
  destruct (near_end w); [apply seek_nicely_sync | apply sync_focus, H].
Qed.

Lemma sync_loop_toggle (w : world) :
  slider_sync c w -> slider_sync c (loop_toggle c w).
Proof.
  apply sync_frame; unfold loop_toggle, seq, when;
    destruct (key_target c), (loop_button c); simpl;
    destruct (loop (video w)); reflexivity.
Qed.

Lemma sync_forward (w : world) :
  slider_sync c w -> slider_sync c (forward c w).
Proof.
  intro H. unfold forward, seq.
  destruct (JS.isFinite (duration (video (when (key_target c) focus w)))).
  - apply seek_nicely_sync.
  - apply sync_focus, H.
Qed.

Lemma sync_keydown (code : string) (w : world) :
  slider_sync c w -> slider_sync c (keydown c code w).
Proof.
  intro H. unfold keydown.
  destruct (String.eqb code "KeyP"); [apply sync_play_pause, H|].
  destruct (String.eqb code "KeyL"); [apply sync_loop_toggle, H|].
  destruct (String.eqb code "KeyR"); [apply seek_nicely_sync|].
  destruct (String.eqb code "BracketLeft"); [apply seek_nicely_sync|].
  destruct (String.eqb code "BracketRight"); [apply seek_nicely_sync|].
  destruct (String.eqb code "KeyF"); [apply sync_forward, H|].
  exact H.
Qed.

Lemma sync_slider_from_video (w : world) :
  slider_sync c w -> slider_sync c (slider_from_video w).
Proof.
  intro H. unfold slider_from_video.
  destruct (negb (JS.isFinite (duration (video w)))); [exact H|].
  intros _ Hs. unfold Seeking in Hs. simpl in *.
  unfold current_time. rewrite Hs. reflexivity.
Qed.

Lemma sync_fire (w : world) (o : outcome) (w' : world) :
  fire c w = Some (o, w') -> slider_sync c w'.
Proof.
  unfold fire, timeout_callback. destruct (timers w) as [|n]; [discriminate|].
  destruct (JS.neq _ _); intro H; injection H as <- <-.
  - apply seek_nicely_sync.
  - apply sync_idle.
    destruct (clear_markers c (set_seek_active JS.Null (set_timers n w)))
      as (_ & _ & Ha & _).
    unfold Seeking. rewrite Ha. reflexivity.
Qed.

Lemma sync_step (a : action) (w w' : world) :
  slider_sync c w -> step c a w = Some w' -> slider_sync c w'.
Proof.
  intros H Hs. destruct a; simpl in Hs;
    try (apply guard_some in Hs; subst w').
  - injection Hs as <-. apply sync_play_pause, H.
  - apply sync_play_pause, H.
  - apply sync_loop_toggle, H.
  - apply seek_nicely_sync.
  - apply seek_nicely_sync.
  - apply seek_nicely_sync.
  - apply sync_forward, H.
  - apply seek_nicely_sync.
  - apply sync_keydown, H.
  - destruct (fire c w) as [[o w1]|] eqn:Hf; simpl in Hs; [|discriminate].
    injection Hs as <-. apply (sync_fire w o w1 Hf).
  - revert H. apply sync_frame; reflexivity.
  - revert H. apply sync_frame; reflexivity.
  - apply sync_slider_from_video, H.
  - injection Hs as <-. revert H. apply sync_frame; reflexivity.
Qed.

Lemma sync_init (v : video_t) (s : slider_t) : slider_sync c (init c v s).
Proof.
  apply sync_idle. unfold init, seq, when, slider_from_video.
  destruct (play_button c), (slider_range c), (key_target c); simpl;
    destruct (paused v); simpl;
    try destruct (negb (JS.isFinite (duration v))); reflexivity.
Qed.

(** Play-button classes. *)
Lemma same_play_cls (w w' : world) : cls w' = cls w -> same_play w w'.
Proof. intro H. unfold same_play. rewrite H. split; reflexivity. Qed.

Lemma same_play_trans (w1 w2 w3 : world) :
  same_play w1 w2 -> same_play w2 w3 -> same_play w1 w3.
Proof. intros [A B] [C D]. split; congruence. Qed.

Lemma same_play_ok (w w' : world) :
  same_play w w' -> play_classes_ok c w -> play_classes_ok c w'.
Proof. intros [A B]. unfold play_classes_ok. rewrite A, B. auto. Qed.

Lemma same_play_prologue (b : button) (w : world) :
  same_play w (when (present c b) (set_seeking b true)
                 (when (key_target c) focus w)).
Proof. destruct (present c b), (key_target c), b; split; reflexivity. Qed.

Lemma same_play_seek_op (b : button) (w : world) :
  same_play w (seek_op c b w).
Proof.
  assert (G : forall t, same_play w
                (seek_nicely c t (when (present c b) (set_seeking b true)
                                    (when (key_target c) focus w)))).
  { intro t. eapply same_play_trans; [apply same_play_prologue|].
    apply same_play_cls, seek_nicely_cls. }
  destruct b; simpl.
  - apply G.
  - unfold prev_frame, seq. apply G.
  - unfold next_frame, seq. apply G.
  - unfold forward, seq.
    destruct (JS.isFinite (duration (video (when (key_target c) focus w)))).
    + apply G.
    + apply same_play_cls. destruct (key_target c); reflexivity.
Qed.

Lemma same_play_play_pause (w : world) : same_play w (play_pause c w).
Proof.
  rewrite play_pause_unfold. cbv zeta.
  set (w1 := if near_end w then rewind c (when (key_target c) focus w)
             else when (key_target c) focus w).
  assert (H1 : same_play w w1).
  { unfold w1. destruct (near_end w).
    - eapply same_play_trans; [|apply (same_play_seek_op Rewind)].
      apply same_play_cls. destruct (key_target c); reflexivity.
    - apply same_play_cls. destruct (key_target c); reflexivity. }
  eapply same_play_trans; [exact H1|]. apply same_play_cls.
  destruct (paused (video w1) || ended (video w1)); reflexivity.
Qed.

Lemma same_play_loop_toggle (w : world) : same_play w (loop_toggle c w).
Proof.
  unfold loop_toggle, seq, when.
  destruct (key_target c), (loop_button c); simpl;
    destruct (loop (video w)); split; reflexivity.
Qed.

Lemma same_play_keydown (code : string) (w : world) :
  same_play w (keydown c code w).
Proof.
  unfold keydown.
  destruct (String.eqb code "KeyP"); [apply same_play_play_pause|].
  destruct (String.eqb code "KeyL"); [apply same_play_loop_toggle|].
  destruct (String.eqb code "KeyR"); [apply (same_play_seek_op Rewind)|].
  destruct (String.eqb code "BracketLeft"); [apply (same_play_seek_op Prev)|].
  destruct (String.eqb code "BracketRight"); [apply (same_play_seek_op Next)|].
  destruct (String.eqb code "KeyF"); [apply (same_play_seek_op Forward)|].
  split; reflexivity.
Qed.

Lemma same_play_fire (w : world) (o : outcome) (w' : world) :
  fire c w = Some (o, w') -> same_play w w'.
Proof.
  unfold fire, timeout_callback. destruct (timers w) as [|n]; [discriminate|].
  destruct (JS.neq _ _); intro H; injection H as <- <-.
  - apply same_play_cls. rewrite seek_nicely_cls. reflexivity.
  - unfold seq, when.
    destruct (rewind_button c), (prev_button c), (next_button c),
             (forward_button c); split; reflexivity.
Qed.

Lemma play_classes_step (a : action) (w w' : world) :
  play_classes_ok c w -> step c a w = Some w' -> play_classes_ok c w'.
Proof.
  intros H Hs. destruct a; simpl in Hs.
  - injection Hs as <-. eapply same_play_ok; [apply same_play_play_pause|exact H].
  - apply guard_some in Hs; subst w'.
    eapply same_play_ok; [apply same_play_play_pause|exact H].
  - apply guard_some in Hs; subst w'.
    eapply same_play_ok; [apply same_play_loop_toggle|exact H].
  - apply guard_some in Hs; subst w'.
    eapply same_play_ok; [apply (same_play_seek_op Rewind)|exact H].
  - apply guard_some in Hs; subst w'.
    eapply same_play_ok; [apply (same_play_seek_op Prev)|exact H].
  - apply guard_some in Hs; subst w'.
    eapply same_play_ok; [apply (same_play_seek_op Next)|exact H].
  - apply guard_some in Hs; subst w'.
    eapply same_play_ok; [apply (same_play_seek_op Forward)|exact H].
  - apply guard_some in Hs; subst w'.
    eapply same_play_ok; [|exact H]. apply same_play_cls.
    unfold slider_input, seq. rewrite seek_nicely_cls. reflexivity.
  - apply guard_some in Hs; subst w'.
    eapply same_play_ok; [apply same_play_keydown|exact H].
  - destruct (fire c w) as [[o w1]|] eqn:Hf; simpl in Hs; [|discriminate].
    injection Hs as <-.
    eapply same_play_ok; [apply (same_play_fire w o w1 Hf)|exact H].
  - unfold guard in Hs. destruct (play_button c) eqn:E; [|discriminate].
    injection Hs as <-. unfold play_classes_ok. rewrite E.
    split; [reflexivity|discriminate].
  - unfold guard in Hs. destruct (play_button c) eqn:E; [|discriminate].
    injection Hs as <-. unfold play_classes_ok. rewrite E.
    split; [reflexivity|discriminate].
  - apply guard_some in Hs; subst w'.
    eapply same_play_ok; [|exact H]. apply same_play_cls.
    unfold slider_from_video.
    destruct (negb (JS.isFinite (duration (video w)))); reflexivity.
  - injection Hs as <-. eapply same_play_ok; [|exact H].
    apply same_play_cls. reflexivity.
Qed.

Lemma play_classes_init (v : video_t) (s : slider_t) :
  play_classes_ok c (init c v s) /\
  (play_button c = true ->
   play_paused (cls (init c v s)) = paused v).
Proof.
  unfold init, seq, when, slider_from_video, play_classes_ok.
  destruct (play_button c), (slider_range c), (key_target c); simpl;
    destruct (paused v); simpl;
    try destruct (negb (JS.isFinite (duration v))); simpl;
    repeat split; try reflexivity; try discriminate.
Qed.

End Mirrors.

(** X5.  In every reachable state of a page with a slider, the slider shows
    the pending target for as long as a seek is in flight, also right
    after a [timeupdate] or [durationchange] event refreshed it. *)
Theorem slider_shows_pending_target :
  forall (c : controls) (w : world),
    reachable c w ->
    slider_range c = true ->
    Seeking w = true ->
    slider_value (slider w) = seek_pending w /\
    slider_value (slider (slider_from_video w)) = current_time w.
Proof.
  intros c w R.
  assert (S : slider_sync c w).
  { induction R as [v s | a w w' _ IH Hstep].
    - apply sync_init.
    - eapply sync_step; eassumption. }
  intros Hr Hs.
  split; [apply S; assumption|].
  pose proof (sync_slider_from_video c w S Hr) as S'.
  unfold current_time. unfold Seeking in Hs. rewrite Hs.
  assert (E : seek_pending (slider_from_video w) = seek_pending w).
  { unfold slider_from_video.
    destruct (negb (JS.isFinite (duration (video w)))); reflexivity. }
  rewrite <- E. apply S'.
  unfold slider_from_video, Seeking.
  destruct (negb (JS.isFinite (duration (video w)))); exact Hs.
Qed.

Lemma slider_shows_pending_target_witness :
  let w0 := init all_controls (sample_video 1 10 true) sample_slider in
  let w := slider_input all_controls 6 (next_frame all_controls w0) in
  slider_value (slider w) = num_of 6.
Proof.
  intros w0 w.
  assert (R : reachable all_controls w).
  { apply (reachable_step all_controls (SliderInput 6)
             (next_frame all_controls w0) w); [|reflexivity].
    apply (reachable_step all_controls ClickNext w0); [|reflexivity].
    apply reachable_init. }
  exact (proj1 (slider_shows_pending_target all_controls w R eq_refl eq_refl)).
Defined.

(** X6.  In every reachable state the play button, when it exists, carries
    exactly one of the classes [playing] and [paused]; when it does not
    exist neither class is ever set. *)
Theorem play_button_has_exactly_one_class :
  forall (c : controls) (w : world),
    reachable c w ->
    xorb (play_playing (cls w)) (play_paused (cls w)) = play_button c /\
    (play_button c = false ->
     play_playing (cls w) = false /\ play_paused (cls w) = false).
Proof.
  intros c w R.
  assert (P : play_classes_ok c w).
  { induction R as [v s | a w w' _ IH Hstep].
    - apply play_classes_init.
    - eapply play_classes_step; eassumption. }
  destruct P as [X N]. split; [exact X|].
  intro E. specialize (N E). split; [exact N|].
  rewrite N, E in X. simpl in X. exact X.
Qed.

Lemma play_button_has_exactly_one_class_witness :
  let w0 := init all_controls (sample_video 1 10 true) sample_slider in
  let w := on_play (play_pause all_controls w0) in
  play_playing (cls w) = true /\ play_paused (cls w) = false.
Proof.
  intros w0 w.
  assert (R : reachable all_controls w).
  { apply (reachable_step all_controls MediaPlay
             (play_pause all_controls w0) w); [|reflexivity].
    apply (reachable_step all_controls ClickPlay w0); [|reflexivity].
    apply reachable_init. }
  destruct (play_button_has_exactly_one_class all_controls w R) as [H _].
  split; [reflexivity|].
  destruct (play_paused (cls w)); [discriminate H | reflexivity].
Defined.

(** *** Coalescing of a burst *)

Lemma last_map_num_of (qs : list Q) (q : Q) :
  last (List.map num_of qs) (num_of q) = num_of (last qs q).
Proof.
  induction qs as [|x [|y qs] IH]; try reflexivity.
  change (last (List.map num_of (y :: qs)) (num_of q)
          = num_of (last (y :: qs) q)).
  exact IH.
Qed.

(** X4.  However many requests a burst from the idle state contains, the media
    position is assigned at most twice: to the first time at once and,
    if the last time differs from it, to the last time when the timeout
    expires.  The times in between are never applied, the media is left
    paused and the controller ends idle. *)
Theorem burst_from_idle_assigns_first_and_last :
  forall (c : controls) (w : world) (q0 : Q) (qs : list Q),
    Idle w = true ->
    timers w = O ->
    exists (outs : list outcome) (w2 : world),
      (forall fuel : nat, (2 <= fuel)%nat ->
         settle c fuel (requests c (List.map num_of (q0 :: qs)) w)
         = (outs, w2)) /\
      (last qs q0 == q0 ->
         set_times (trace w2) = JS.Fin q0 :: set_times (trace w)) /\
      (~ last qs q0 == q0 ->
         set_times (trace w2)
         = JS.Fin (last qs q0) :: JS.Fin q0 :: set_times (trace w)) /\
      paused (video w2) = true /\
      Idle w2 = true /\ timers w2 = O.
Proof.
  intros c w q0 qs Hi Ht.
  unfold Idle in Hi. apply negb_true_iff in Hi.
  destruct (seek_nicely_from_idle c (JS.Fin q0) w Hi eq_refl)
    as (T1 & A1 & P1 & R1 & _ & U1 & _).
  rewrite Ht in T1.
  change (requests c (List.map num_of (q0 :: qs)) w)
    with (requests c (List.map num_of qs)
            (seek_nicely c (JS.Num (JS.Fin q0)) w)).
  set (w1 := seek_nicely c (JS.Num (JS.Fin q0)) w) in *.
  assert (S1 : Seeking w1 = true) by (unfold Seeking; rewrite A1; reflexivity).
  destruct (requests_seeking_frame c (List.map num_of qs) w1 S1)
    as (Hv & _ & Ha & Htm & Htr & Hp).
  set (wr := requests c (List.map num_of qs) w1) in *.
  rewrite P1 in Hp. change (JS.Num (JS.Fin q0)) with (num_of q0) in Hp.
  rewrite last_map_num_of in Hp.
  rewrite T1 in Htm. rewrite A1 in Ha. rewrite R1 in Htr.
  assert (Hn : JS.neq (seek_pending wr) (seek_active wr)
               = negb (Qeq_bool (last qs q0) q0))
    by (rewrite Hp, Ha; reflexivity).
  destruct (Qeq_bool (last qs q0) q0) eqn:E.
  - apply Qeq_bool_iff in E.
    destruct (fire_unchanged c wr Htm Hn)
      as (w2 & Hf & T2 & A2 & _ & R2 & V2 & _).
    exists [Cleared], w2. split.
    { intros fuel Hfuel. destruct fuel as [|[|k]]; try lia.
      simpl. rewrite Hf. rewrite fire_quiet by assumption. reflexivity. }
    split; [intros _; rewrite R2, Htr; reflexivity|].
    split; [intro N; contradiction|].
    split; [rewrite V2, Hv; exact U1|].
    split; [unfold Idle, Seeking; rewrite A2; reflexivity | exact T2].
  - assert (N : ~ last qs q0 == q0).
    { intro Q. apply Qeq_bool_iff in Q. congruence. }
    destruct (fire_changed c wr (JS.Fin (last qs q0)) Htm Hp eq_refl Hn)
      as (w' & Hf & T' & A' & P' & R' & _ & _ & U').
    assert (Hn' : JS.neq (seek_pending w') (seek_active w') = false)
      by (rewrite P', A'; apply num_neq_refl_fin).
    destruct (fire_unchanged c w' T' Hn')
      as (w2 & Hf2 & T2 & A2 & _ & R2 & V2 & _).
    exists [Reissued; Cleared], w2. split.
    { intros fuel Hfuel. destruct fuel as [|[|k]]; try lia.
      simpl. rewrite Hf, Hf2. rewrite settle_quiet by assumption.
      reflexivity. }
    split; [intro Q; contradiction|].
    split; [intros _; rewrite R2, R', Htr; reflexivity|].
    split; [rewrite V2; exact U'|].
    split; [unfold Idle, Seeking; rewrite A2; reflexivity | exact T2].
Qed.

Lemma burst_from_idle_assigns_first_and_last_witness :
  let w := init all_controls (sample_video 5 10 false) sample_slider in
  exists outs w2,
    settle all_controls 2
      (requests all_controls (List.map num_of [2; 3; 4; 7]) w) = (outs, w2) /\
    paused (video w2) = true.
Proof.
  intro w.
  destruct (burst_from_idle_assigns_first_and_last all_controls w 2 [3; 4; 7])
    as (outs & w2 & Hs & _ & _ & Hp & _); try reflexivity.
  exists outs, w2. split; [apply Hs; lia | exact Hp].
Defined.


(** *** loop_toggle, play_pause and the key handler *)

(** X11.  [loop_toggle()] flips the loop flag and leaves the media playing
    exactly when looping is now on, so switching looping off always
    pauses; with a loop button the [looping] class mirrors the new flag.
    It never touches the position or the seek machinery, and a second
    toggle restores the loop flag. *)
Theorem loop_toggle_plays_iff_looping :
  forall (c : controls) (w : world),
    loop (video (loop_toggle c w)) = negb (loop (video w)) /\
    paused (video (loop_toggle c w)) = negb (loop (video (loop_toggle c w))) /\
    (loop_button c = true ->
     loop_looping (cls (loop_toggle c w)) = loop (video (loop_toggle c w))) /\
    (loop_button c = false ->
     loop_looping (cls (loop_toggle c w)) = loop_looping (cls w)) /\
    currentTime (video (loop_toggle c w)) = currentTime (video w) /\
    set_times (trace (loop_toggle c w)) = set_times (trace w) /\
    same_seek w (loop_toggle c w) /\
    loop (video (loop_toggle c (loop_toggle c w))) = loop (video w).
Proof.
  intros c w.
  split; [|split; [|split; [|split; [|split; [|split; [|split]]]]]];
    try apply same_seek_loop_toggle;
    unfold loop_toggle, seq, when;
    destruct (key_target c), (loop_button c); simpl;
    destruct (loop (video w)); simpl; try reflexivity; try discriminate.
Qed.

Lemma loop_toggle_plays_iff_looping_witness :
  let w := init all_controls (sample_video 3 10 false) sample_slider in
  loop_looping (cls (loop_toggle all_controls w)) = true /\
  paused (video (loop_toggle all_controls w)) = false.
Proof.
  intro w.
  destruct (loop_toggle_plays_iff_looping all_controls w)
    as (L & P & B & _).
  split.
  - rewrite (B eq_refl), L. reflexivity.
  - rewrite P, L. reflexivity.
Defined.

(** X8.  On an idle controller [play_pause()] within 0.2 s of the end always
    restarts: position 0 is assigned, a debounced seek to 0 is in flight
    and [play()] is the last call, whatever the [paused] and [ended]
    flags were. *)
Theorem play_pause_restarts_at_end :
  forall (c : controls) (w : world),
    Idle w = true ->
    near_end w = true ->
    paused (video (play_pause c w)) = false /\
    last_set_time (trace (play_pause c w)) = Some (JS.Fin 0) /\
    seek_pending (play_pause c w) = num_of 0 /\
    Seeking (play_pause c w) = true /\
    timers (play_pause c w) = S (timers w) /\
    exists tr,
      trace (play_pause c w)
      = EPlay :: ESetTimeout :: ESetTime (JS.Fin 0) :: EPause :: tr.
Proof.
  intros c w Hi N.
  rewrite play_pause_unfold. cbv zeta. rewrite N.
  unfold rewind, seq.
  destruct (prologue_frame (key_target c) (rewind_button c) Rewind
              (when (key_target c) focus w))
    as (_ & _ & _ & Ht0 & _ & _ & Hs0 & _).
  set (w0 := when (rewind_button c) (set_seeking Rewind true)
               (when (key_target c) focus (when (key_target c) focus w))) in *.
  assert (S0 : Seeking w0 = false).
  { rewrite Hs0. unfold Idle in Hi. apply negb_true_iff in Hi.
    destruct (key_target c); exact Hi. }
  assert (T0 : timers w0 = timers w)
    by (rewrite Ht0; destruct (key_target c); reflexivity).
  destruct (seek_nicely_from_idle c (JS.Fin 0) w0 S0 eq_refl)
    as (T1 & A1 & P1 & R1 & _ & U1 & _).
  set (w1 := seek_nicely c (JS.Num (JS.Fin 0)) w0) in *.
  rewrite U1. simpl.
  rewrite R1, P1, T1, T0. repeat split; try reflexivity.
  - unfold Seeking. simpl. rewrite A1. reflexivity.
  - eexists. reflexivity.
Qed.

Lemma play_pause_restarts_at_end_witness :
  let w := init all_controls (mkVideo (JS.Fin 30) (JS.Fin 30) false true false)
             sample_slider in
  paused (video (play_pause all_controls w)) = false.
Proof.
  intro w.
  apply (play_pause_restarts_at_end all_controls w); vm_compute; reflexivity.
Defined.

(** X9.  Away from the end [play_pause()] is a pure toggle: it plays when the
    media is paused or ended and pauses otherwise, and touches neither the
    position, the seek state, the timers, the classes nor the slider. *)
Theorem play_pause_away_from_end_only_toggles :
  forall (c : controls) (w : world),
    near_end w = false ->
    paused (video (play_pause c w))
    = negb (paused (video w) || ended (video w)) /\
    currentTime (video (play_pause c w)) = currentTime (video w) /\
    set_times (trace (play_pause c w)) = set_times (trace w) /\
    seek_active (play_pause c w) = seek_active w /\
    seek_pending (play_pause c w) = seek_pending w /\
    timers (play_pause c w) = timers w /\
    cls (play_pause c w) = cls w /\
    slider (play_pause c w) = slider w.
Proof.
  intros c w N. rewrite play_pause_unfold. cbv zeta. rewrite N.
  destruct (key_target c); simpl;
    destruct (paused (video w) || ended (video w)); repeat split; reflexivity.
Qed.

Lemma play_pause_away_from_end_only_toggles_witness :
  let w := init all_controls (sample_video 3 10 true) sample_slider in
  paused (video (play_pause all_controls w)) = false /\
  timers (play_pause all_controls w) = O.
Proof.
  intro w.
  destruct (play_pause_away_from_end_only_toggles all_controls w)
    as (H & _ & _ & _ & _ & T & _); [vm_compute; reflexivity|].
  split; [exact H | exact T].
Defined.

(** X10.  With a duration that is NaN (no metadata yet) or infinite (a live
    stream) [play_pause()] never rewinds: no position is assigned and no
    debounced seek is started. *)
Theorem play_pause_never_rewinds_without_finite_duration :
  forall (c : controls) (w : world),
    duration (video w) = JS.NaN \/ duration (video w) = JS.PInf ->
    near_end w = false /\
    set_times (trace (play_pause c w)) = set_times (trace w) /\
    seek_active (play_pause c w) = seek_active w /\
    timers (play_pause c w) = timers w.
Proof.
  intros c w H.
  assert (N : near_end w = false).
  { unfold near_end, JS.gtb.
    destruct H as [H|H]; rewrite H; simpl;
      destruct (JS.to_number (current_time w)); reflexivity. }
  split; [exact N|].
  rewrite play_pause_unfold. cbv zeta. rewrite N.
  destruct (key_target c); simpl;
    destruct (paused (video w) || ended (video w)); repeat split; reflexivity.
Qed.

Lemma play_pause_never_rewinds_without_finite_duration_witness :
  let w := init all_controls (mkVideo (JS.Fin 0) JS.NaN true false false)
             sample_slider in
  timers (play_pause all_controls w) = O.
Proof.
  intro w.
  apply (play_pause_never_rewinds_without_finite_duration all_controls w).
  left. reflexivity.
Defined.

(** X12.  The key handler reacts to six key codes only: for every other code
    the state is left exactly as it was. *)
Theorem keydown_ignores_other_codes :
  forall (c : controls) (code : string) (w : world),
    ~ In code known_codes ->
    keydown c code w = w /\
    (key_target c = true -> step c (KeyDown code) w = Some w).
Proof.
  intros c code w H.
  assert (E : keydown c code w = w).
  { unfold keydown.
    destruct (String.eqb_spec code "KeyP");
      [exfalso; apply H; subst; simpl; auto|].
    destruct (String.eqb_spec code "KeyL");
      [exfalso; apply H; subst; simpl; auto|].
    destruct (String.eqb_spec code "KeyR");
      [exfalso; apply H; subst; simpl; auto|].
    destruct (String.eqb_spec code "BracketLeft");
      [exfalso; apply H; subst; simpl; auto 6|].
    destruct (String.eqb_spec code "BracketRight");
      [exfalso; apply H; subst; simpl; auto 6|].
    destruct (String.eqb_spec code "KeyF");
      [exfalso; apply H; subst; simpl; auto 7|].
    reflexivity. }
  split; [exact E|].
  intro K. simpl. rewrite K, E. reflexivity.
Qed.

Lemma keydown_ignores_other_codes_witness :
  let w := init all_controls (sample_video 3 10 true) sample_slider in
  keydown all_controls "Space" w = w.
Proof.
  intro w.
  apply (keydown_ignores_other_codes all_controls "Space" w).
  simpl. intros [H|[H|[H|[H|[H|[H|[]]]]]]]; discriminate H.
Defined.


(** *** Range and step of the frame operations *)










(** *** Edges of the timeout callback and of next_frame *)



(** Operations of the script on a number that is not NaN do not produce
    NaN. *)
Lemma arith_not_nan (f : Q -> Q) (n : JS.num) :
  n <> JS.NaN -> JS.arith f n <> JS.NaN.
Proof.
  intro H. destruct n as [q| | |]; simpl; try discriminate; [|congruence].
  unfold JS.round.
  destruct (Qnum (f q)); [discriminate| |].
  - destruct (JS.round_pos _); discriminate.
  - destruct (JS.round_pos _); discriminate.
Qed.

(** X16.  [next_frame()] has no guard for a duration that is not finite.
    With a NaN duration (no metadata yet) it requests a seek to NaN,
    where [forward()] would do nothing; from the idle state the setter
    throws at once, so the controller is left seeking with no timeout to
    end the seek.  With an infinite duration it requests the next mark
    unclamped. *)
Theorem next_frame_without_finite_duration :
  forall (c : controls) (w : world),
    (duration (video w) = JS.NaN ->
       seek_pending (next_frame c w) = JS.Num JS.NaN /\
       Seeking (next_frame c w) = true /\
       seek_pending (forward c w) = seek_pending w /\
       (Idle w = true ->
        timers (next_frame c w) = timers w /\
        last_set_time (trace (next_frame c w)) = last_set_time (trace w) /\
        exists tr, trace (next_frame c w) = ETypeError :: EPause :: tr)) /\
    (forall t : Q,
        duration (video w) = JS.PInf ->
        JS.to_number (current_time w) = JS.Fin t ->
        seek_pending (next_frame c w) = JS.Num (next_of (current_time w))).
Proof.
  intros c w.
  destruct (next_frame_pending c w) as (S & P & _).
  split.
  - intro Hd.
    assert (E : next_target (current_time w) (duration (video w)) = JS.NaN).
    { unfold next_target. rewrite Hd.
      destruct (next_of (current_time w)); reflexivity. }
    rewrite E in P.
    split; [exact P|]. split; [exact S|]. split.
    + unfold forward, seq, when.
      destruct (key_target c); simpl; rewrite Hd; reflexivity.
    + intro Hi. rewrite next_frame_request, E.
      destruct (prologue_frame (key_target c) (next_button c) Next w)
        as (_ & _ & _ & Ht0 & _ & _ & Hs0 & Htr0).
      set (w0 := when (next_button c) (set_seeking Next true)
                   (when (key_target c) focus w)) in *.
      assert (S0 : Seeking w0 = false).
      { rewrite Hs0. unfold Idle in Hi. apply negb_true_iff in Hi. exact Hi. }
      destruct (seek_nicely_from_idle_throw c JS.NaN w0 S0 eq_refl)
        as (T1 & _ & _ & R1 & _).
      rewrite T1, R1, Ht0, Htr0.
      split; [reflexivity|]. split.
      * destruct (key_target c); reflexivity.
      * eexists. reflexivity.
  - intros t Hd Ht. rewrite P. f_equal.
    unfold next_target. rewrite Hd.
    assert (N : next_of (current_time w) <> JS.NaN).
    { unfold next_of. rewrite Ht. unfold JS.floor.
      repeat apply arith_not_nan. discriminate. }
    destruct (next_of (current_time w)); try reflexivity. congruence.
Qed.

Lemma next_frame_without_finite_duration_witness :
  let w := init all_controls (mkVideo (JS.Fin 0) JS.NaN true false false)
             sample_slider in
  seek_pending (next_frame all_controls w) = JS.Num JS.NaN /\
  timers (next_frame all_controls w) = timers w.
Proof.
  intro w.
  destruct (proj1 (next_frame_without_finite_duration all_controls w) eq_refl)
    as (P & _ & _ & H).
  split; [exact P|]. apply (H eq_refl).
Defined.

(** ** The earlier controller (src/unnamed/part_001) *)

Section LegacyFacts.

Variable c : controls.

Lemma legacy_rewind_frame (s : Legacy.state) :
  Legacy.same_timeouts s (Legacy.rewind c s) /\ Legacy.lkeeps s (Legacy.rewind c s).
Proof.
  unfold Legacy.rewind, Legacy.lseq, Legacy.lwhen, Legacy.same_timeouts, Legacy.lkeeps.
  destruct (key_target c), (rewind_button c); simpl;
    (split; [repeat split | intros [] H; simpl in *; auto]).
Qed.

Lemma legacy_prev_frame_frame (s : Legacy.state) :
  Legacy.same_timeouts s (Legacy.prev_frame c s) /\ Legacy.lkeeps s (Legacy.prev_frame c s).
Proof.
  unfold Legacy.prev_frame, Legacy.lseq, Legacy.lwhen, Legacy.same_timeouts,
    Legacy.lkeeps, Legacy.or_throw, Legacy.video_set_currentTime.
  destruct (key_target c), (prev_button c);
    match goal with
    | |- context [JS.isFinite ?x] => destruct (JS.isFinite x)
    end;
    (split; [repeat split | intros [] H; simpl in *; auto]).
Qed.

Lemma legacy_next_frame_frame (s : Legacy.state) :
  Legacy.same_timeouts s (Legacy.next_frame c s) /\ Legacy.lkeeps s (Legacy.next_frame c s).
Proof.
  unfold Legacy.next_frame, Legacy.lseq, Legacy.lwhen, Legacy.same_timeouts,
    Legacy.lkeeps, Legacy.or_throw, Legacy.video_set_currentTime.
  destruct (key_target c), (next_button c);
    match goal with
    | |- context [JS.isFinite ?x] => destruct (JS.isFinite x)
    end;
    (split; [repeat split | intros [] H; simpl in *; auto]).
Qed.

Lemma legacy_forward_frame (s : Legacy.state) :
  Legacy.same_timeouts s (Legacy.forward c s) /\ Legacy.lkeeps s (Legacy.forward c s).
Proof.
  unfold Legacy.forward, Legacy.lseq, Legacy.lwhen, Legacy.same_timeouts,
    Legacy.lkeeps, Legacy.or_throw, Legacy.video_set_currentTime.
  destruct (key_target c), (forward_button c); simpl;
    destruct (JS.isFinite (duration (Legacy.lvideo s)));
    (split; [repeat split | intros [] H; simpl in *; auto]).
Qed.

Lemma legacy_play_pause_frame (s : Legacy.state) :
  Legacy.same_timeouts s (Legacy.play_pause c s) /\
  Legacy.lkeeps s (Legacy.play_pause c s).
Proof.
  unfold Legacy.play_pause, Legacy.lseq.
  set (s0 := Legacy.lwhen (key_target c) Legacy.focus s).
  assert (F0 : Legacy.same_timeouts s s0 /\ Legacy.lkeeps s s0).
  { unfold s0, Legacy.lwhen, Legacy.same_timeouts, Legacy.lkeeps.
    destruct (key_target c); (split; [repeat split | intros b H; exact H]). }
  set (s1 := Legacy.lwhen (Legacy.near_end s0) (Legacy.rewind c) s0).
  assert (F1 : Legacy.same_timeouts s s1 /\ Legacy.lkeeps s s1).
  { unfold s1, Legacy.lwhen. destruct (Legacy.near_end s0); [|exact F0].
    destruct (legacy_rewind_frame s0) as [(A & B & C) K].
    destruct F0 as [(A0 & B0 & C0) K0].
    split; [repeat split; congruence | intros b H; apply K, K0, H]. }
  destruct F1 as [(A & B & C) K].
  destruct (paused (Legacy.lvideo s1) || ended (Legacy.lvideo s1));
    (split; [repeat split; assumption | intros b H; apply (K b H)]).
Qed.

Lemma legacy_loop_toggle_frame (s : Legacy.state) :
  Legacy.same_timeouts s (Legacy.loop_toggle c s) /\
  Legacy.lkeeps s (Legacy.loop_toggle c s).
Proof.
  unfold Legacy.loop_toggle, Legacy.lseq, Legacy.lwhen, Legacy.same_timeouts, Legacy.lkeeps.
  destruct (key_target c), (loop_button c); simpl;
    destruct (loop (Legacy.lvideo s)); simpl;
    (split; [repeat split | intros [] H; simpl in *; auto]).
Qed.

Lemma legacy_keydown_frame (code : string) (s : Legacy.state) :
  Legacy.same_timeouts s (Legacy.keydown c code s) /\
  Legacy.lkeeps s (Legacy.keydown c code s).
Proof.
  unfold Legacy.keydown.
  destruct (String.eqb code "KeyP"); [apply legacy_play_pause_frame|].
  destruct (String.eqb code "KeyL"); [apply legacy_loop_toggle_frame|].
  destruct (String.eqb code "KeyR"); [apply legacy_rewind_frame|].
  destruct (String.eqb code "BracketLeft"); [apply legacy_prev_frame_frame|].
  destruct (String.eqb code "BracketRight"); [apply legacy_next_frame_frame|].
  destruct (String.eqb code "KeyF"); [apply legacy_forward_frame|].
  split; [repeat split | intros b H; exact H].
Qed.

Lemma legacy_same_timeouts_inv (s s' : Legacy.state) :
  Legacy.same_timeouts s s' -> Legacy.inv s -> Legacy.inv s'.
Proof.
  intros (A & B & C). unfold Legacy.inv. rewrite A, B, C. auto.
Qed.

(** A [seeked] event leaves exactly its own new timeout pending. *)
Lemma legacy_on_seeked (s : Legacy.state) :
  Legacy.inv s ->
  Legacy.seek_timeout_id (Legacy.on_seeked s) = Some (Legacy.next_id s) /\
  Legacy.pending (Legacy.on_seeked s) = [Legacy.next_id s] /\
  Legacy.next_id (Legacy.on_seeked s) = S (Legacy.next_id s) /\
  Legacy.lcls (Legacy.on_seeked s) = Legacy.lcls s /\
  Legacy.lvideo (Legacy.on_seeked s) = Legacy.lvideo s /\
  Legacy.inv (Legacy.on_seeked s).
Proof.
  intros [Hn Hi].
  assert (E : Legacy.seek_timeout_id (Legacy.on_seeked s)
              = Some (Legacy.next_id s) /\
              Legacy.pending (Legacy.on_seeked s) = [Legacy.next_id s] /\
              Legacy.next_id (Legacy.on_seeked s) = S (Legacy.next_id s) /\
              Legacy.lcls (Legacy.on_seeked s) = Legacy.lcls s /\
              Legacy.lvideo (Legacy.on_seeked s) = Legacy.lvideo s).
  { unfold Legacy.on_seeked, Legacy.lseq, Legacy.lwhen, Legacy.clearTimeout.
    destruct (Legacy.seek_timeout_id s) as [id|] eqn:Eid.
    - destruct Hi as [Hp [Hpos _]].
      destruct id as [|id]; [lia|]. simpl. rewrite Hp. simpl.
      rewrite Nat.eqb_refl. simpl. repeat split; reflexivity.
    - simpl. rewrite Hi. repeat split; reflexivity. }
  destruct E as (A & B & C & D & V).
  split; [exact A|]. split; [exact B|]. split; [exact C|].
  split; [exact D|]. split; [exact V|].
  unfold Legacy.inv. rewrite A, B, C. split; [lia|].
  split; [reflexivity|lia].
Qed.

(** An expiring timeout is the one [seek_timeout_id] names; its callback
    removes the [seeking] class from every present button. *)
Lemma legacy_fire (id : nat) (s s' : Legacy.state) :
  Legacy.inv s ->
  Legacy.fire c id s = Some s' ->
  Legacy.seek_timeout_id s = Some id /\
  Legacy.seek_timeout_id s' = None /\
  Legacy.pending s' = [] /\
  Legacy.next_id s' = Legacy.next_id s /\
  (forall b, Legacy.marked b s'
             = if present c b then false else Legacy.marked b s).
Proof.
  intros [Hn Hi] Hf. unfold Legacy.fire in Hf.
  destruct (Legacy.seek_timeout_id s) as [id0|] eqn:Eid.
  - destruct Hi as [Hp _]. rewrite Hp in Hf. simpl in Hf.
    destruct (Nat.eqb_spec id id0) as [->|]; [|discriminate].
    simpl in Hf. injection Hf as <-.
    unfold Legacy.timeout_callback, Legacy.lseq, Legacy.lwhen,
      Legacy.clearTimeout.
    rewrite Hp. simpl. rewrite Nat.eqb_refl. simpl.
    destruct (rewind_button c) eqn:E1, (prev_button c) eqn:E2,
             (next_button c) eqn:E3, (forward_button c) eqn:E4;
      simpl; repeat split; try reflexivity;
      intros []; simpl; rewrite ?E1, ?E2, ?E3, ?E4; reflexivity.
  - rewrite Hi in Hf. discriminate.
Qed.

Lemma legacy_guard_some (b : bool) (x s' : Legacy.state) :
  Legacy.lguard b x = Some s' -> x = s'.
Proof. destruct b; simpl; congruence. Qed.

Lemma legacy_init_inv (v : video_t) (n : nat) : Legacy.inv (Legacy.init c v n).
Proof.
  unfold Legacy.init, Legacy.lseq, Legacy.lwhen, Legacy.inv.
  destruct (play_button c), (key_target c); simpl;
    destruct (paused v); simpl; split; try reflexivity; lia.
Qed.

Lemma legacy_step_inv (a : Legacy.action) (s s' : Legacy.state) :
  Legacy.inv s -> Legacy.step c a s = Some s' -> Legacy.inv s'.
Proof.
  intros H Hs. destruct a; simpl in Hs;
    try (match type of Hs with
         | Legacy.lguard _ _ = _ => apply legacy_guard_some in Hs; subst s'
         end).
  - injection Hs as <-.
    eapply legacy_same_timeouts_inv; [apply legacy_play_pause_frame|exact H].
  - eapply legacy_same_timeouts_inv; [apply legacy_play_pause_frame|exact H].
  - eapply legacy_same_timeouts_inv; [apply legacy_loop_toggle_frame|exact H].
  - eapply legacy_same_timeouts_inv; [apply legacy_rewind_frame|exact H].
  - eapply legacy_same_timeouts_inv; [apply legacy_prev_frame_frame|exact H].
  - eapply legacy_same_timeouts_inv; [apply legacy_next_frame_frame|exact H].
  - eapply legacy_same_timeouts_inv; [apply legacy_forward_frame|exact H].
  - eapply legacy_same_timeouts_inv; [apply legacy_keydown_frame|exact H].
  - injection Hs as <-. apply legacy_on_seeked, H.
  - destruct (legacy_fire id s s' H Hs) as (_ & A & B & C & _).
    destruct H as [Hn _]. unfold Legacy.inv. rewrite A, B, C. auto.
  - eapply legacy_same_timeouts_inv; [|exact H]. repeat split.
  - eapply legacy_same_timeouts_inv; [|exact H]. repeat split.
  - injection Hs as <-. eapply legacy_same_timeouts_inv; [|exact H].
    repeat split.
Qed.

Lemma legacy_reachable_inv (s : Legacy.state) :
  Legacy.reachable c s -> Legacy.inv s.
Proof.
  induction 1 as [v n | a s s' _ IH Hs].
  - apply legacy_init_inv.
  - eapply legacy_step_inv; eassumption.
Qed.

Lemma legacy_step_keeps (a : Legacy.action) (s s' : Legacy.state) :
  (forall id, a <> Legacy.Timeout id) ->
  Legacy.step c a s = Some s' ->
  forall b, Legacy.marked b s = true -> Legacy.marked b s' = true.
Proof.
  intros Ha Hs. destruct a; simpl in Hs;
    try (match type of Hs with
         | Legacy.lguard _ _ = _ => apply legacy_guard_some in Hs; subst s'
         end).
  - injection Hs as <-. apply legacy_play_pause_frame.
  - apply legacy_play_pause_frame.
  - apply legacy_loop_toggle_frame.
  - apply legacy_rewind_frame.
  - apply legacy_prev_frame_frame.
  - apply legacy_next_frame_frame.
  - apply legacy_forward_frame.
  - apply legacy_keydown_frame.
  - injection Hs as <-. intros b Hb.
    unfold Legacy.on_seeked, Legacy.lseq, Legacy.lwhen, Legacy.clearTimeout.
    destruct (Legacy.seek_timeout_id s) as [[|id]|]; destruct b; exact Hb.
  - exfalso. apply (Ha id). reflexivity.
  - intros [] Hb; exact Hb.
  - intros [] Hb; exact Hb.
  - injection Hs as <-. intros [] Hb; exact Hb.
Qed.

Lemma legacy_seeked_burst (n : nat) : forall s : Legacy.state,
  Legacy.inv s ->
  let s' := Legacy.seeked_burst (S n) s in
  Legacy.seek_timeout_id s' = Some (n + Legacy.next_id s)%nat /\
  Legacy.pending s' = [(n + Legacy.next_id s)%nat] /\
  Legacy.lcls s' = Legacy.lcls s /\
  Legacy.inv s'.
Proof.
  induction n as [|n IH]; intros s H; cbv zeta.
  - destruct (legacy_on_seeked s H) as (A & B & _ & D & _ & I).
    simpl. split; [exact A|]. split; [exact B|]. split; [exact D|exact I].
  - destruct (legacy_on_seeked s H) as (_ & _ & C0 & D0 & _ & I0).
    change (Legacy.seeked_burst (S (S n)) s)
      with (Legacy.seeked_burst (S n) (Legacy.on_seeked s)).
    destruct (IH _ I0) as (A & B & D & I).
    rewrite A, B, D, C0, D0.
    replace (n + S (Legacy.next_id s))%nat with (S n + Legacy.next_id s)%nat
      by lia.
    split; [reflexivity|]. split; [reflexivity|]. split; [reflexivity|exact I].
Qed.

End LegacyFacts.

(** X17.  In every reachable state of the earlier controller at most one
    timeout is pending, and it is the one [seek_timeout_id] names: every
    [seeked] event cancels the timeout of the event before it. *)
Theorem legacy_at_most_one_timeout :
  forall (c : controls) (s : Legacy.state),
    Legacy.reachable c s ->
    Legacy.pending s
    = match Legacy.seek_timeout_id s with
      | Some id => [id]
      | None => []
      end /\
    (List.length (Legacy.pending s) <= 1)%nat.
Proof.
  intros c s R. destruct (legacy_reachable_inv c s R) as [_ H].
  destruct (Legacy.seek_timeout_id s) as [id|].
  - destruct H as [Hp _]. rewrite Hp. split; [reflexivity|simpl; lia].
  - rewrite H. split; [reflexivity|simpl; lia].
Qed.

Lemma legacy_at_most_one_timeout_witness :
  let s0 := Legacy.init all_controls (sample_video 1 10 true) 0 in
  let s := Legacy.on_seeked (Legacy.on_seeked (Legacy.rewind all_controls s0)) in
  (List.length (Legacy.pending s) <= 1)%nat.
Proof.
  intros s0 s.
  assert (R : Legacy.reachable all_controls s).
  { apply (Legacy.reachable_step all_controls Legacy.Seeked
             (Legacy.on_seeked (Legacy.rewind all_controls s0)) s);
      [|reflexivity].
    apply (Legacy.reachable_step all_controls Legacy.Seeked
             (Legacy.rewind all_controls s0)); [|reflexivity].
    apply (Legacy.reachable_step all_controls Legacy.ClickRewind s0);
      [|reflexivity].
    apply Legacy.reachable_init. }
  apply (legacy_at_most_one_timeout all_controls s R).
Defined.

(** X18.  After any run of one or more [seeked] events exactly one timeout is
    pending, the classes are still as before the run, no other timeout
    can expire, and when that one expires no present button carries
    [seeking] and nothing is pending any more. *)
Theorem legacy_seeked_burst_clears_once :
  forall (c : controls) (s : Legacy.state) (n : nat),
    Legacy.reachable c s ->
    exists id : nat,
      Legacy.pending (Legacy.seeked_burst (S n) s) = [id] /\
      Legacy.lcls (Legacy.seeked_burst (S n) s) = Legacy.lcls s /\
      (forall j, j <> id ->
         Legacy.fire c j (Legacy.seeked_burst (S n) s) = None) /\
      exists s2 : Legacy.state,
        Legacy.fire c id (Legacy.seeked_burst (S n) s) = Some s2 /\
        Legacy.pending s2 = [] /\
        Legacy.seek_timeout_id s2 = None /\
        (forall b, present c b = true -> Legacy.marked b s2 = false).
Proof.
  intros c s n R. pose proof (legacy_reachable_inv c s R) as I.
  destruct (legacy_seeked_burst n s I) as (A & B & D & I1).
  set (s1 := Legacy.seeked_burst (S n) s) in *.
  exists (n + Legacy.next_id s)%nat.
  split; [exact B|]. split; [exact D|]. split.
  { intros j Hj. unfold Legacy.fire. rewrite B. simpl.
    destruct (Nat.eqb_spec j (n + Legacy.next_id s)); [contradiction|].
    reflexivity. }
  assert (F : exists s2, Legacy.fire c (n + Legacy.next_id s) s1 = Some s2).
  { unfold Legacy.fire. rewrite B. simpl. rewrite Nat.eqb_refl. simpl.
    eexists. reflexivity. }
  destruct F as [s2 F]. exists s2. split; [exact F|].
  destruct (legacy_fire c _ s1 s2 I1 F) as (_ & A2 & B2 & _ & M).
  split; [exact B2|]. split; [exact A2|].
  intros b Hb. rewrite M, Hb. reflexivity.
Qed.

Lemma legacy_seeked_burst_clears_once_witness :
  let s := Legacy.rewind all_controls
             (Legacy.init all_controls (sample_video 1 10 true) 0) in
  exists id : nat, Legacy.pending (Legacy.seeked_burst 3 s) = [id].
Proof.
  intro s.
  assert (R : Legacy.reachable all_controls s).
  { apply (Legacy.reachable_step all_controls Legacy.ClickRewind
             (Legacy.init all_controls (sample_video 1 10 true) 0));
      [|reflexivity].
    apply Legacy.reachable_init. }
  destruct (legacy_seeked_burst_clears_once all_controls s 2 R)
    as (id & H & _).
  exists id. exact H.
Defined.

(** X19.  In the earlier controller a seek operation marks its button, pauses
    and assigns the position, but schedules nothing; no step other than
    an expiring timeout removes a [seeking] class, and only a [seeked]
    event sets a timeout.  A marker therefore stays until the media
    reports [seeked]. *)
Theorem legacy_markers_wait_for_seeked :
  forall (c : controls) (s : Legacy.state),
    (forall b : button,
        present c b = true ->
        (b = Forward -> JS.isFinite (duration (Legacy.lvideo s)) = true) ->
        Legacy.marked b (Legacy.seek_op c b s) = true /\
        paused (Legacy.lvideo (Legacy.seek_op c b s)) = true /\
        Legacy.pending (Legacy.seek_op c b s) = Legacy.pending s) /\
    (forall (a : Legacy.action) (s' : Legacy.state),
        Legacy.step c a s = Some s' ->
        (forall id, a <> Legacy.Timeout id) ->
        (forall b, Legacy.marked b s = true -> Legacy.marked b s' = true) /\
        (a <> Legacy.Seeked -> Legacy.pending s' = Legacy.pending s)).
Proof.
  intros c s. split.
  - intros b Hb Hf. destruct b; simpl in *.
    + unfold Legacy.rewind, Legacy.lseq, Legacy.lwhen. rewrite Hb.
      destruct (key_target c); repeat split; reflexivity.
    + unfold Legacy.prev_frame, Legacy.lseq, Legacy.lwhen, Legacy.or_throw,
        Legacy.video_set_currentTime.
      rewrite Hb.
      destruct (key_target c);
        match goal with
        | |- context [JS.isFinite ?x] => destruct (JS.isFinite x)
        end; repeat split; reflexivity.
    + unfold Legacy.next_frame, Legacy.lseq, Legacy.lwhen, Legacy.or_throw,
        Legacy.video_set_currentTime.
      rewrite Hb.
      destruct (key_target c);
        match goal with
        | |- context [JS.isFinite ?x] => destruct (JS.isFinite x)
        end; repeat split; reflexivity.
    + unfold Legacy.forward, Legacy.lseq, Legacy.lwhen, Legacy.or_throw,
        Legacy.video_set_currentTime.
      rewrite Hb.
      destruct (key_target c); simpl; rewrite (Hf eq_refl);
        repeat split; reflexivity.
  - intros a s' Hs Ha. split; [exact (legacy_step_keeps c a s s' Ha Hs)|].
    intro Hk. destruct a; simpl in Hs;
      try (match type of Hs with
           | Legacy.lguard _ _ = _ => apply legacy_guard_some in Hs; subst s'
           end).
    + injection Hs as <-. apply legacy_play_pause_frame.
    + apply legacy_play_pause_frame.
    + apply legacy_loop_toggle_frame.
    + apply legacy_rewind_frame.
    + apply legacy_prev_frame_frame.
    + apply legacy_next_frame_frame.
    + apply legacy_forward_frame.
    + apply legacy_keydown_frame.
    + congruence.
    + exfalso. apply (Ha id). reflexivity.
    + reflexivity.
    + reflexivity.
    + injection Hs as <-. reflexivity.
Qed.

Lemma legacy_markers_wait_for_seeked_witness :
  let s := Legacy.init all_controls (sample_video 4 10 false) 0 in
  Legacy.marked Next (Legacy.seek_op all_controls Next s) = true /\
  Legacy.pending (Legacy.seek_op all_controls Next s) = [].
Proof.
  intro s.
  destruct (legacy_markers_wait_for_seeked all_controls s) as [H _].
  destruct (H Next) as (M & _ & P); [reflexivity|discriminate|].
  split; [exact M | exact P].
Defined.





(** ** The first key handler (src/unnamed/part_000) *)

(** X21.  After the L key the media plays exactly when it loops; L on a paused
    media always switches looping on, and from then on every further L
    flips looping.  The arrow keys always pause.  All three keys suppress
    the default action; every other key changes nothing and leaves the
    default action alone. *)
Theorem arrow_keys_loop_rule :
  forall v : video_t,
    let v1 := fst (ArrowKeys.keydown "KeyL" v) in
    let v2 := fst (ArrowKeys.keydown "KeyL" v1) in
    paused v1 = negb (loop v1) /\
    (paused v = true -> loop v1 = true) /\
    (paused v = false -> loop v1 = negb (loop v)) /\
    loop v2 = negb (loop v1) /\
    paused (fst (ArrowKeys.keydown "ArrowLeft" v)) = true /\
    paused (fst (ArrowKeys.keydown "ArrowRight" v)) = true /\
    (forall code : string,
        snd (ArrowKeys.keydown code v)
        = existsb (String.eqb code) ["ArrowLeft"; "ArrowRight"; "KeyL"]%string) /\
    (forall code : string,
        snd (ArrowKeys.keydown code v) = false ->
        fst (ArrowKeys.keydown code v) = v).
Proof.
  intro v. cbv zeta. simpl.
  split; [reflexivity|].
  split; [intro H; rewrite H; reflexivity|].
  split; [intro H; rewrite H; reflexivity|].
  split; [destruct (paused v), (loop v); reflexivity|].
  split; [reflexivity|]. split; [reflexivity|].
  split; intros code; unfold ArrowKeys.keydown;
    destruct (String.eqb code "ArrowLeft"), (String.eqb code "ArrowRight"),
             (String.eqb code "KeyL"); simpl; try reflexivity;
    discriminate.
Qed.

Lemma arrow_keys_loop_rule_witness :
  loop (fst (ArrowKeys.keydown "KeyL" (sample_video 3 10 true))) = true.
Proof.
  exact (proj1 (proj2 (arrow_keys_loop_rule (sample_video 3 10 true))) eq_refl).
Defined.
